(** * Dysentery dashboard (app.py): cleaning, filtering, aggregation, forecast

    A shallow embedding of the data pipeline of [app.py].  A DataFrame is a
    list of rows in index order, a nullable cell is an [option], a Python
    [str] is a list of 8-bit characters (the data file is ASCII, so [\d]
    is 0..9), and float64 arithmetic is carried out on exact rationals
    ([Q], compared with [==]); on integer case counts below 2^53 the sums
    of the program are exact as well.  The pandas and scikit-learn
    operations the script calls are written out as the list functions they
    compute.  Dates are calendar dates; the range a [Timestamp] can hold is
    a parameter of the script: the loader coerces a date outside it to NaT,
    and the date arithmetic of the forecast block raises on one. *)

From Stdlib Require Import List ZArith QArith Qround Ascii String Lia Lqa Bool.
From Stdlib Require Import Sorting.Sorted Sorting.Permutation Setoid Morphisms.
Import ListNotations.

Set Implicit Arguments.

Local Open Scope Z_scope.

(** ** Python strings *)

Definition str : Type := list ascii.

Module Str.

(** A string literal of the source. *)
Definition lit (x : string) : str := list_ascii_of_string x.

Fixpoint eqb (a b : str) : bool :=
  match a, b with
  | [], [] => true
  | x :: a', y :: b' => Ascii.eqb x y && eqb a' b'
  | _, _ => false
  end.

(** Python orders strings by code point, left to right. *)
Fixpoint compare (a b : str) : comparison :=
  match a, b with
  | [], [] => Eq
  | [], _ :: _ => Lt
  | _ :: _, [] => Gt
  | x :: a', y :: b' =>
      match Ascii.compare x y with
      | Eq => compare a' b'
      | c => c
      end
  end.

(** [s.replace(old, new)] for one-character [old] and [new]. *)
Definition replace (old new : ascii) (s : str) : str :=
  map (fun c => if Ascii.eqb c old then new else c) s.

(** [a + b] on a nullable string column: a null operand gives null. *)
Definition add (a b : option str) : option str :=
  match a, b with
  | Some x, Some y => Some (x ++ y)
  | _, _ => None
  end.

Definition is_digit (c : ascii) : bool :=
  (48 <=? Z.of_N (N_of_ascii c)) && (Z.of_N (N_of_ascii c) <=? 57).

Definition digit_val (c : ascii) : Z := Z.of_N (N_of_ascii c) - 48.

(** [int(s)] for a string of ASCII digits, most significant first. *)
Definition int_of_digits (s : str) : option Z :=
  if forallb is_digit s && negb (Nat.eqb (List.length s) 0)
  then Some (fold_left (fun n c => 10 * n + digit_val c) s 0)
  else None.

End Str.

(** ** The regular expressions of [load_data]

    The three patterns of the source use literals, [\d], a greedy [[^/]+],
    one capture group and [$].  [match_here] is the backtracking matcher of
    [re] restricted to these atoms; it returns the text of group 1. *)

Module Re.

Inductive atom : Type :=
| Lit (c : ascii)       (* a literal character *)
| Digit                 (* \d *)
| PlusNot (c : ascii)   (* [^c]+ , greedy *)
| Open                  (* ( *)
| Close                 (* ) *)
| Dollar.               (* $ *)

Definition regex := list atom.

Definition push (g : bool) (x : ascii) (acc : str) : str :=
  if g then x :: acc else acc.

(** [$] without MULTILINE: the end of the string, or just before a
    newline that ends the string. *)
Definition at_end (s : str) : bool :=
  match s with
  | [] => true
  | [c] => Ascii.eqb c "010"%char
  | _ => false
  end.

(** [match_here p s g acc]: match [p] at the start of [s]; [g] tells
    whether the group is open, [acc] holds its text so far, reversed. *)
Fixpoint match_here (p : regex) : str -> bool -> str -> option str :=
  match p with
  | [] => fun _ _ acc => Some (rev acc)
  | a :: p' =>
      let k := match_here p' in
      match a with
      | Lit c => fun s g acc =>
          match s with
          | x :: s' => if Ascii.eqb x c then k s' g (push g x acc) else None
          | [] => None
          end
      | Digit => fun s g acc =>
          match s with
          | x :: s' => if Str.is_digit x then k s' g (push g x acc) else None
          | [] => None
          end
      | PlusNot c =>
          fix plus (s : str) (g : bool) (acc : str) : option str :=
            match s with
            | x :: s' =>
                if Ascii.eqb x c then None
                else match plus s' g (push g x acc) with
                     | Some r => Some r
                     | None => k s' g (push g x acc)
                     end
            | [] => None
            end
      | Open => fun s _ acc => k s true acc
      | Close => fun s _ acc => k s false acc
      | Dollar => fun s g acc => if at_end s then k s g acc else None
      end
  end.

(** [re.search]: the leftmost position at which the pattern matches. *)
Fixpoint search (p : regex) (s : str) : option str :=
  match match_here p s false [] with
  | Some r => Some r
  | None =>
      match s with
      | [] => None
      | _ :: s' => search p s'
      end
  end.

(** [Series.str.extract(p)[0]]: group 1 of the first match, null when
    the cell is null or nothing matches. *)
Definition extract (p : regex) (cell : option str) : option str :=
  match cell with
  | Some s => search p s
  | None => None
  end.

Definition lits (x : string) : regex := map Lit (Str.lit x).

(** r'/resource/([^/]+)$' *)
Definition area_pattern : regex :=
  lits "/resource/" ++ [Open; PlusNot "/"%char; Close; Dollar].

(** r'(\d{4})' *)
Definition year_pattern : regex :=
  [Open] ++ repeat Digit 4 ++ [Close].

(** r'(\d{2})-\d{4}' *)
Definition month_pattern : regex :=
  [Open] ++ repeat Digit 2 ++ [Close; Lit "-"%char] ++ repeat Digit 4.

End Re.

(** ** Calendar dates: [Timestamp.toordinal] and [DateOffset(months=n)] *)

Record date : Type := mkdate { year : Z; month : Z; day : Z }.

Module Calendar.

Definition is_leap (y : Z) : bool :=
  (y mod 4 =? 0) && (negb (y mod 100 =? 0) || (y mod 400 =? 0)).

Definition days_in_month (y m : Z) : Z :=
  match m with
  | 1 | 3 | 5 | 7 | 8 | 10 | 12 => 31
  | 4 | 6 | 9 | 11 => 30
  | 2 => if is_leap y then 29 else 28
  | _ => 0
  end.

(** Days before January 1st of year [y] (proleptic Gregorian). *)
Definition days_before_year (y : Z) : Z :=
  let p := y - 1 in p * 365 + p / 4 - p / 100 + p / 400.

(** Days of year [y] before the first day of month [m]. *)
Definition days_before_month (y m : Z) : Z :=
  match m with
  | 1 => 0 | 2 => 31 | 3 => 59 | 4 => 90 | 5 => 120 | 6 => 151
  | 7 => 181 | 8 => 212 | 9 => 243 | 10 => 273 | 11 => 304 | 12 => 334
  | _ => 0
  end + (if (2 <? m) && is_leap y then 1 else 0).

(** [date.toordinal()]: 0001-01-01 is day 1. *)
Definition toordinal (d : date) : Z :=
  days_before_year (year d) + days_before_month (year d) (month d) + day d.

(** [d + pd.DateOffset(months=n)]: move [n] calendar months, keep the day
    of the month, clipped to the length of the target month. *)
Definition add_months (d : date) (n : Z) : date :=
  let t := month d - 1 + n in
  let y := year d + t / 12 in
  let m := t mod 12 + 1 in
  mkdate y m (Z.min (day d) (days_in_month y m)).

(** Chronological order. *)
Definition compare (a b : date) : comparison :=
  match year a ?= year b with
  | Eq => match month a ?= month b with
          | Eq => day a ?= day b
          | c => c
          end
  | c => c
  end.

Definition ltb (a b : date) : bool :=
  match compare a b with Lt => true | _ => false end.

(** The nanosecond [Timestamp] range of pandas, on first days of a month:
    1677-10-01 up to 2262-04-01. *)
Definition ns_bounds (d : date) : bool :=
  ((1677 <? year d) || ((year d =? 1677) && (10 <=? month d)))
  && ((year d <? 2262) || ((year d =? 2262) && (month d <=? 4))).

End Calendar.

(** ** DataFrame operations used by the script *)

Module Frame.

(** [Series.sum()]: the empty sum is 0. *)
Definition sum (vs : list Q) : Q := fold_left Qplus vs 0%Q.

(** [Series.mean()]: the sum over the count. *)
Definition mean (vs : list Q) : Q :=
  (sum vs / inject_Z (Z.of_nat (List.length vs)))%Q.

Section GroupBy.
Variables R K : Type.
Variable cmp : K -> K -> comparison.
Variable key : R -> K.
Variable val : R -> Q.

(** Add one value to the group of its key; groups are kept in
    ascending key order, each with its values in row order. *)
Fixpoint put (k : K) (v : Q) (gs : list (K * list Q)) : list (K * list Q) :=
  match gs with
  | [] => [(k, [v])]
  | (k', vs) :: t =>
      match cmp k k' with
      | Lt => (k, [v]) :: gs
      | Eq => (k', vs ++ [v]) :: t
      | Gt => (k', vs) :: put k v t
      end
  end.

(** [df.groupby(key)[val]]: one group per distinct key, sorted by key. *)
Definition groupby (df : list R) : list (K * list Q) :=
  fold_left (fun gs r => put (key r) (val r) gs) df [].

(** [.sum()] and [.mean()] of a grouped column. *)
Definition agg (f : list Q -> Q) (gs : list (K * list Q)) : list (K * Q) :=
  map (fun g => (fst g, f (snd g))) gs.

(** Look a label up in a series. *)
Fixpoint lookup (V : Type) (k : K) (sr : list (K * V)) : option V :=
  match sr with
  | [] => None
  | (k', v) :: t =>
      match cmp k k' with
      | Eq => Some v
      | _ => lookup k t
      end
  end.

(** [Series.reindex(labels)]: one entry per label, in the order of
    [labels]; a label the series does not have gets NaN ([None]). *)
Definition reindex (labels : list K) (sr : list (K * Q)) : list (K * option Q) :=
  map (fun k => (k, lookup k sr)) labels.

(** Sorting a frame by a column, ascending ([leb] is the order of the
    column [col]).  pandas does not promise the order of ties. *)
Variable E C : Type.
Variable col : E -> C.
Variable leb : C -> C -> bool.

Fixpoint insert (x : E) (l : list E) : list E :=
  match l with
  | [] => [x]
  | y :: t => if leb (col x) (col y) then x :: l else y :: insert x t
  end.

Definition sort_values (l : list E) : list E :=
  fold_right insert [] l.

End GroupBy.

(** [Series.max()] of a date column; NaT ([None]) when it is empty. *)
Fixpoint max_date (l : list date) : option date :=
  match l with
  | [] => None
  | d :: t =>
      match max_date t with
      | None => Some d
      | Some m => Some (if Calendar.ltb d m then m else d)
      end
  end.

End Frame.

(** ** [sklearn.linear_model.LinearRegression] with one feature *)

(** The exceptions the script can end with.  pandas derives
    OutOfBoundsDatetime from ValueError; the two are kept apart here, since
    they come from different lines of the script. *)
Inductive exn : Type :=
| ValueError
| OutOfBoundsDatetime.

Inductive result (A : Type) : Type :=
| Ok (a : A)
| Raise (e : exn).

Arguments Ok {A} a.
Arguments Raise {A} e.

Definition bind {A B : Type} (r : result A) (f : A -> result B) : result B :=
  match r with
  | Ok a => f a
  | Raise e => Raise e
  end.

Module LinearRegression.

Record model : Type := mkmodel { coef : Q; intercept : Q }.

(** The line [fit] computes on a non-empty sample: it centres both columns,
    solves the least-squares problem on the centred data (the solution of
    least norm, 0, when the centred [X] is zero) and sets the intercept
    from the two means. *)
Definition centred_lstsq (X : list Z) (y : list Q) : model :=
  let xs := map inject_Z X in
  let X_offset := Frame.mean xs in
  let y_offset := Frame.mean y in
  let xc := map (fun x => x - X_offset)%Q xs in
  let yc := map (fun v => v - y_offset)%Q y in
  let sxx := Frame.sum (map (fun x => x * x)%Q xc) in
  let sxy := Frame.sum (map (fun p => fst p * snd p)%Q (combine xc yc)) in
  let a := if Qeq_bool sxx 0 then 0%Q else (sxy / sxx)%Q in
  mkmodel a (y_offset - X_offset * a)%Q.

(** [fit(X, y)]: the input validation asks for at least one sample and
    raises a ValueError on an empty one; on any other sample [fit] returns
    the least-squares line. *)
Definition fit (X : list Z) (y : list Q) : result model :=
  match X with
  | [] => Raise ValueError
  | _ :: _ => Ok (centred_lstsq X y)
  end.

Definition predict (m : model) (x : Z) : Q :=
  (coef m * inject_Z x + intercept m)%Q.

(** Sum of squared residuals of the line [a * x + b] on a sample. *)
Definition sse (a b : Q) (X : list Z) (y : list Q) : Q :=
  Frame.sum (map (fun p => (snd p - (a * inject_Z (fst p) + b)) *
                           (snd p - (a * inject_Z (fst p) + b)))%Q
                 (combine X y)).

End LinearRegression.

(** ** The script *)

Record RawRecord : Type := mkRaw {
  refArea : option str;
  refPeriod : option str;
  Number_of_cases : option Q
}.

(** A row of [df] inside [load_data], after the derived columns are added. *)
Record DerivedRow : Type := mkDerived {
  d_Date : option date;
  d_Year : option str;
  d_Month : option str;
  d_Governorate : option str;
  d_cases : option Q
}.

(** A row of the table [load_data] returns: no cell is null. *)
Record CleanRecord : Type := mkClean {
  Date : date;
  Year : str;
  Month : str;
  Governorate : str;
  cases : Q
}.

Definition month_order : list str :=
  map Str.lit
    ["January"; "February"; "March"; "April"; "May"; "June";
     "July"; "August"; "September"; "October"; "November"; "December"]%string.

Section App.

(** The range of dates a [Timestamp] of the pandas build can hold
    ([Calendar.ns_bounds] by default). *)
Variable in_bounds : date -> bool.

(** [pd.to_datetime(cell, errors='coerce')] on the strings the script
    builds, [Year + "-" + Month]: four digits, a dash, two digits.  The
    result is the first day of that month; a null cell, a month outside
    01..12 or a date out of range gives NaT ([None]). *)
Definition to_datetime (cell : option str) : option date :=
  match cell with
  | Some [y1; y2; y3; y4; dash; m1; m2] =>
      if Ascii.eqb dash "-"%char then
        match Str.int_of_digits [y1; y2; y3; y4], Str.int_of_digits [m1; m2] with
        | Some y, Some m =>
            if (1 <=? m) && (m <=? 12) && in_bounds (mkdate y m 1)
            then Some (mkdate y m 1) else None
        | _, _ => None
        end
      else None
  | _ => None
  end.

(** df = df[df["Number of cases"].notna()] *)
Definition notna_cases (df : list RawRecord) : list RawRecord :=
  filter (fun r => match Number_of_cases r with Some _ => true | None => false end) df.

(** The four column assignments of [load_data], row by row. *)
Definition derive (r : RawRecord) : DerivedRow :=
  let gov := option_map (Str.replace "_" " ")
               (Re.extract Re.area_pattern (refArea r)) in
  let yr := Re.extract Re.year_pattern (refPeriod r) in
  let mo := Re.extract Re.month_pattern (refPeriod r) in
  let dt := to_datetime (Str.add (Str.add yr (Some (Str.lit "-"))) mo) in
  mkDerived dt yr mo gov (Number_of_cases r).

Definition dropna_row (r : DerivedRow) : option CleanRecord :=
  match d_Date r, d_Year r, d_Month r, d_Governorate r, d_cases r with
  | Some d, Some y, Some m, Some g, Some c => Some (mkClean d y m g c)
  | _, _, _, _, _ => None
  end.

(** df[[...]].dropna(): rows with a null cell are removed. *)
Definition dropna (df : list DerivedRow) : list CleanRecord :=
  flat_map (fun r => match dropna_row r with Some c => [c] | None => [] end) df.

Definition load_data (csv : list RawRecord) : list CleanRecord :=
  dropna (map derive (notna_cases csv)).

End App.

(** [Series.isin(values)] *)
Definition isin (x : str) (values : list str) : bool :=
  existsb (Str.eqb x) values.

Definition df_filtered (df : list CleanRecord) (selected_years selected_govs : list str)
  : list CleanRecord :=
  filter (fun r => isin (Year r) selected_years && isin (Governorate r) selected_govs) df.

(** [int(x)]: truncation toward zero. *)
Definition int (x : Q) : Z := Z.quot (Qnum x) (Zpos (Qden x)).

(** kpi1: int(df_filtered['Number of cases'].sum()) *)
Definition total_cases (df : list CleanRecord) : Z :=
  int (Frame.sum (map cases df)).

(** trend = df_filtered.groupby("Date")["Number of cases"].sum().reset_index() *)
Definition trend (df : list CleanRecord) : list (date * Q) :=
  Frame.agg Frame.sum (Frame.groupby Calendar.compare Date cases df).

(** gov_data = df_filtered.groupby("Governorate")["Number of cases"].sum()
               .sort_values(ascending=True) *)
Definition gov_data (df : list CleanRecord) : list (str * Q) :=
  Frame.sort_values (@snd str Q) Qle_bool
    (Frame.agg Frame.sum (Frame.groupby Str.compare Governorate cases df)).

(** [strftime("%B")] of a date in month [n]: the English month name. *)
Definition strftime_B (n : Z) : str :=
  nth (Z.to_nat (n - 1)) month_order [].

(** pd.to_datetime(m, format="%m").dt.strftime("%B"); a string that is not
    a month number makes [to_datetime] raise. *)
Definition month_name (m : str) : result str :=
  match Str.int_of_digits m with
  | Some n =>
      if (1 <=? n) && (n <=? 12)
      then Ok (strftime_B n)
      else Raise ValueError
  | None => Raise ValueError
  end.

(** df_filtered["Month Name"] = ... : the frame with the new column. *)
Fixpoint with_month_name (df : list CleanRecord) : result (list (CleanRecord * str)) :=
  match df with
  | [] => Ok []
  | r :: t =>
      bind (month_name (Month r)) (fun n =>
      bind (with_month_name t) (fun t' => Ok ((r, n) :: t')))
  end.

(** monthly_avg = df_filtered.groupby("Month Name")["Number of cases"].mean()
                  .reindex(month_order) *)
Definition monthly_avg (df : list CleanRecord) : result (list (str * option Q)) :=
  bind (with_month_name df) (fun df' =>
    Ok (Frame.reindex Str.compare month_order
          (Frame.agg Frame.mean
             (Frame.groupby Str.compare (@snd CleanRecord str)
                (fun p => cases (fst p)) df')))).

(** A row of [monthly_cases]: Date, Number of cases, Date_Ordinal. *)
Record SeriesRow : Type := mkSeries {
  s_Date : date;
  s_cases : Q;
  s_Ordinal : Z
}.

(** monthly_cases = groupby("Date").sum().reset_index()
                      .dropna().sort_values("Date"),
    then the column Date_Ordinal.  The two columns hold no null, so
    [dropna] keeps every row. *)
Definition monthly_cases (df : list CleanRecord) : list SeriesRow :=
  map (fun p => mkSeries (fst p) (snd p) (Calendar.toordinal (fst p)))
    (Frame.sort_values (@fst date Q)
       (fun a b => negb (Calendar.ltb b a))
       (Frame.agg Frame.sum (Frame.groupby Calendar.compare Date cases df))).

(** range(1, 7) *)
Definition horizon : list Z := map Z.of_nat (seq 1 6).

(** [ts + pd.DateOffset(months=n)]: the sum is a [Timestamp] again, so a
    date outside the range a Timestamp can hold raises
    OutOfBoundsDatetime. *)
Definition add_offset (in_bounds : date -> bool) (ts : date) (n : Z) : result date :=
  let d := Calendar.add_months ts n in
  if in_bounds d then Ok d else Raise OutOfBoundsDatetime.

(** A list comprehension [[f(i) for i in l]]: the elements are computed
    from left to right, and the first exception ends the comprehension. *)
Fixpoint comprehension (A B : Type) (f : A -> result B) (l : list A)
  : result (list B) :=
  match l with
  | [] => Ok []
  | i :: t =>
      bind (f i) (fun b =>
      bind (comprehension f t) (fun bs => Ok (b :: bs)))
  end.

(** The forecast block: fit on (Date_Ordinal, Number of cases), then
    predict at the six dates after the last one.  [fit] raises on an empty
    sample, before [last_date] is computed; the six dates are computed
    next, one after the other, and a date no Timestamp can hold raises. *)
Definition forecast (in_bounds : date -> bool) (df : list CleanRecord)
  : result (list (date * Q)) :=
  let mc := monthly_cases df in
  bind (LinearRegression.fit (map s_Ordinal mc) (map s_cases mc)) (fun model =>
    match Frame.max_date (map s_Date mc) with
    | None => Raise ValueError
    | Some last_date =>
        bind (comprehension (add_offset in_bounds last_date) horizon)
          (fun future_dates =>
             Ok (map (fun d => (d, LinearRegression.predict model
                                     (Calendar.toordinal d)))
                   future_dates))
    end).

(** What one run of the script below the filters computes, in order. *)
Record Views : Type := mkViews {
  v_total_cases : Z;
  v_trend : list (date * Q);
  v_gov_data : list (str * Q);
  v_monthly_avg : list (str * option Q);
  v_forecast : list (date * Q)
}.

Definition dashboard (in_bounds : date -> bool) (df : list CleanRecord)
  : result Views :=
  let k := total_cases df in
  let t := trend df in
  let g := gov_data df in
  bind (monthly_avg df) (fun m =>
  bind (forecast in_bounds df) (fun f =>
    Ok (mkViews k t g m f))).

(** ** The derivations of the loader in the words of the specification *)

Module Spec.

(** [w] is a run of exactly [n] digits. *)
Definition digit_run (n : nat) (w : str) : bool :=
  Nat.eqb (List.length w) n && forallb Str.is_digit w.

(** "the first 4-digit run" of a string (for [n = 4]). *)
Fixpoint first_digits (n : nat) (s : str) : option str :=
  if digit_run n (firstn n s) then Some (firstn n s)
  else match s with
       | [] => None
       | _ :: t => first_digits n t
       end.

(** The string starts with MM-YYYY. *)
Definition month_year_here (s : str) : bool :=
  digit_run 2 (firstn 2 s)
  && match nth_error s 2 with
     | Some c => Ascii.eqb c "-"%char
     | None => false
     end
  && digit_run 4 (firstn 4 (skipn 3 s)).

(** "the 2-digit run immediately preceding a 4-digit year token". *)
Fixpoint month_before_year (s : str) : option str :=
  if month_year_here s then Some (firstn 2 s)
  else match s with
       | [] => None
       | _ :: t => month_before_year t
       end.

(** No character of the segment is a slash. *)
Definition slash_free (seg : str) : bool :=
  forallb (fun c => negb (Ascii.eqb c "/"%char)) seg.

Definition on_cell {A : Type} (f : str -> option A) (cell : option str) : option A :=
  match cell with
  | Some s => f s
  | None => None
  end.

End Spec.

(** The shape of a row of the clean table: its [Date] is the first day of
    the month that [Year] and [Month] spell. *)
Definition month_start_row (r : CleanRecord) : Prop :=
  day (Date r) = 1 /\ 1 <= month (Date r) <= 12
  /\ Str.int_of_digits (Month r) = Some (month (Date r))
  /\ Str.int_of_digits (Year r) = Some (year (Date r)).

(** ** The sidebar, the other two KPIs and the combined frame *)

(** [Series.unique()]: the distinct values, in order of first appearance. *)
Fixpoint unique (A : Type) (eqb : A -> A -> bool) (l : list A) : list A :=
  match l with
  | [] => []
  | x :: t => x :: filter (fun y => negb (eqb x y)) (unique eqb t)
  end.

(** [a <= b] on Python strings. *)
Definition str_leb (a b : str) : bool :=
  match Str.compare a b with
  | Gt => false
  | _ => true
  end.

(** [sorted(values)] for strings. *)
Definition sorted (values : list str) : list str :=
  Frame.sort_values (fun s : str => s) str_leb values.

(** years = sorted(df["Year"].unique()) *)
Definition years (df : list CleanRecord) : list str :=
  sorted (unique Str.eqb (map Year df)).

(** governorates = sorted(df["Governorate"].unique()) *)
Definition governorates (df : list CleanRecord) : list str :=
  sorted (unique Str.eqb (map Governorate df)).

Definition date_eqb (a b : date) : bool :=
  (year a =? year b) && (month a =? month b) && (day a =? day b).

(** kpi2: df_filtered["Date"].nunique() *)
Definition months_covered (df : list CleanRecord) : nat :=
  List.length (unique date_eqb (map Date df)).

(** kpi3: df_filtered["Governorate"].nunique() *)
Definition governorates_covered (df : list CleanRecord) : nat :=
  List.length (unique Str.eqb (map Governorate df)).

(** combined = pd.concat([monthly_cases[["Date", "Number of cases"]],
                          forecast_df]), both with the value column renamed
    to "Cases": the historical rows, then the six forecast rows. *)
Definition combined (in_bounds : date -> bool) (df : list CleanRecord)
  : result (list (date * Q)) :=
  bind (forecast in_bounds df) (fun forecast_df =>
    Ok (map (fun s => (s_Date s, s_cases s)) (monthly_cases df) ++ forecast_df)).

(** The pairs of neighbours of a list. *)
Definition neighbours (A : Type) (l : list A) : list (A * A) :=
  combine l (tl l).

(** ** Vocabulary of the statements *)

(** The keys of a series are strictly ascending. *)
Definition ascending (K V : Type) (cmp : K -> K -> comparison)
    (l : list (K * V)) : Prop :=
  StronglySorted (fun g h => cmp (fst g) (fst h) = Lt) l.

(** The rows of a frame whose key is [k]. *)
Definition rows_of (R K : Type) (cmp : K -> K -> comparison) (key : R -> K)
    (k : K) (df : list R) : list R :=
  filter (fun r => match cmp (key r) k with Eq => true | _ => false end) df.

(** A first day of a calendar month. *)
Definition month_start (d : date) : Prop :=
  day d = 1 /\ 1 <= month d <= 12.

(** The rows of a frame whose [Month] column spells the month number [i]. *)
Definition rows_of_month (i : Z) (df : list CleanRecord) : list CleanRecord :=
  filter (fun r => match Str.int_of_digits (Month r) with
                   | Some n => n =? i
                   | None => false
                   end) df.

(** What the entry of month number [i] in the by-month view must be: its
    label is the [i]-th month name; it is missing when no row has that
    month, and the mean of [Number of cases] over the rows that have it
    otherwise. *)
Definition month_entry_ok (df : list CleanRecord) (i : Z)
    (e : str * option Q) : Prop :=
  fst e = strftime_B i
  /\ match snd e with
     | None => rows_of_month i df = []
     | Some q => rows_of_month i df <> []
                 /\ q = Frame.mean (map cases (rows_of_month i df))
     end.

(** The sample moments of a regression sample, a list of (x, y) pairs. *)
Definition sigma (f : Z * Q -> Q) (ps : list (Z * Q)) : Q :=
  Frame.sum (map f ps).

Definition xq (p : Z * Q) : Q := inject_Z (fst p).

Definition size (ps : list (Z * Q)) : Q :=
  inject_Z (Z.of_nat (List.length ps)).

Definition xbar (ps : list (Z * Q)) : Q := (sigma xq ps / size ps)%Q.

Definition ybar (ps : list (Z * Q)) : Q := (sigma snd ps / size ps)%Q.

Definition sxx (ps : list (Z * Q)) : Q :=
  sigma (fun p => (xq p - xbar ps) * (xq p - xbar ps))%Q ps.

Definition sxy (ps : list (Z * Q)) : Q :=
  sigma (fun p => (xq p - xbar ps) * (snd p - ybar ps))%Q ps.

Definition slope (ps : list (Z * Q)) : Q :=
  if Qeq_bool (sxx ps) 0 then 0%Q else (sxy ps / sxx ps)%Q.

(** The squared residual of the line [a * x + b] at one point. *)
Definition res (a b : Q) (p : Z * Q) : Q :=
  ((snd p - (a * xq p + b)) * (snd p - (a * xq p + b)))%Q.

(** The regression sample of the forecast block. *)
Definition sample (df : list CleanRecord) : list (Z * Q) :=
  map (fun s => (s_Ordinal s, s_cases s)) (monthly_cases df).

(** One calendar month later, and the [n] months that follow a date, each
    one calendar month after the one before. *)
Definition next_month (d : date) : date := Calendar.add_months d 1.

Fixpoint months_after (n : nat) (d : date) : list date :=
  match n with
  | O => []
  | S k => next_month d :: months_after k (next_month d)
  end.

(** A Timestamp can hold each of the six months after the last date of
    the frame: the condition under which the date arithmetic of the
    forecast block does not raise.  (An empty frame has no last date.) *)
Definition future_dates_in_bounds (in_bounds : date -> bool)
    (df : list CleanRecord) : bool :=
  match Frame.max_date (map s_Date (monthly_cases df)) with
  | Some last_date =>
      forallb in_bounds (map (Calendar.add_months last_date) horizon)
  | None => true
  end.

(** A group after more values of its key have been seen. *)
Definition extend (o : option (list Q)) (l : list Q) : option (list Q) :=
  match l with
  | [] => o
  | _ :: _ => Some (match o with Some vs => vs | None => [] end ++ l)
  end.

(** * Properties *)

(** ** Strings *)

Lemma str_eqb_eq (a b : str) : Str.eqb a b = true <-> a = b.
Proof.
  revert b; induction a as [|x a IH]; intros [|y b]; simpl; split;
    try congruence; try reflexivity.
  - rewrite andb_true_iff, Ascii.eqb_eq, IH. intros [-> ->]; reflexivity.
  - intros E; injection E as -> ->.
    rewrite andb_true_iff, Ascii.eqb_eq, IH; split; reflexivity.
Qed.

Lemma str_eqb_refl (a : str) : Str.eqb a a = true.
Proof. apply str_eqb_eq; reflexivity. Qed.

Lemma ascii_compare_refl (x : ascii) : Ascii.compare x x = Eq.
Proof. unfold Ascii.compare. apply N.compare_refl. Qed.

Lemma ascii_compare_lt_trans (x y z : ascii) :
  Ascii.compare x y = Lt -> Ascii.compare y z = Lt -> Ascii.compare x z = Lt.
Proof.
  unfold Ascii.compare. rewrite !N.compare_lt_iff. apply N.lt_trans.
Qed.

Lemma str_compare_eq (a b : str) : Str.compare a b = Eq <-> a = b.
Proof.
  revert b; induction a as [|x a IH]; intros [|y b]; simpl; split;
    try congruence; try reflexivity.
  - destruct (Ascii.compare x y) eqn:E; try discriminate.
    apply Ascii.compare_eq_iff in E. rewrite IH. congruence.
  - intros E; injection E as -> ->.
    rewrite ascii_compare_refl. apply IH; reflexivity.
Qed.

Lemma str_compare_antisym (a b : str) :
  Str.compare a b = CompOpp (Str.compare b a).
Proof.
  revert b; induction a as [|x a IH]; intros [|y b]; simpl; try reflexivity.
  rewrite (Ascii.compare_antisym y x).
  destruct (Ascii.compare x y); simpl; auto.
Qed.

Lemma str_compare_lt_trans (a b c : str) :
  Str.compare a b = Lt -> Str.compare b c = Lt -> Str.compare a c = Lt.
Proof.
  revert b c; induction a as [|x a IH]; intros [|y b] [|z c]; simpl;
    try congruence.
  destruct (Ascii.compare x y) eqn:Exy; try discriminate;
    destruct (Ascii.compare y z) eqn:Eyz; try discriminate; intros H1 H2.
  - apply Ascii.compare_eq_iff in Exy, Eyz; subst.
    rewrite ascii_compare_refl. eapply IH; eassumption.
  - apply Ascii.compare_eq_iff in Exy; subst. rewrite Eyz; reflexivity.
  - apply Ascii.compare_eq_iff in Eyz; subst. rewrite Exy; reflexivity.
  - rewrite (ascii_compare_lt_trans _ _ _ Exy Eyz); reflexivity.
Qed.

(** ** Dates *)

Lemma date_compare_eq (a b : date) : Calendar.compare a b = Eq <-> a = b.
Proof.
  destruct a as [ya ma da], b as [yb mb db]; unfold Calendar.compare; simpl.
  split.
  - destruct (ya ?= yb) eqn:Ey; try discriminate.
    destruct (ma ?= mb) eqn:Em; try discriminate.
    intros Ed. apply Z.compare_eq_iff in Ey, Em, Ed. congruence.
  - intros E; injection E as -> -> ->. now rewrite !Z.compare_refl.
Qed.

Lemma date_compare_antisym (a b : date) :
  Calendar.compare a b = CompOpp (Calendar.compare b a).
Proof.
  unfold Calendar.compare.
  rewrite (Z.compare_antisym (year a) (year b)),
          (Z.compare_antisym (month a) (month b)),
          (Z.compare_antisym (day a) (day b)).
  destruct (year a ?= year b), (month a ?= month b), (day a ?= day b);
    reflexivity.
Qed.

Lemma date_compare_lt_iff (a b : date) :
  Calendar.compare a b = Lt <->
  year a < year b \/
  (year a = year b /\ (month a < month b \/ (month a = month b /\ day a < day b))).
Proof.
  unfold Calendar.compare.
  destruct (Z.compare_spec (year a) (year b));
    destruct (Z.compare_spec (month a) (month b));
    destruct (Z.compare_spec (day a) (day b));
    split; intros; try discriminate; try reflexivity; lia.
Qed.

Lemma date_compare_lt_trans (a b c : date) :
  Calendar.compare a b = Lt -> Calendar.compare b c = Lt ->
  Calendar.compare a c = Lt.
Proof. rewrite !date_compare_lt_iff. lia. Qed.

(** ** The matcher on the three patterns *)

Lemma match_plus_nil (c : ascii) (p : Re.regex) (g : bool) (acc : str) :
  Re.match_here (Re.PlusNot c :: p) [] g acc = None.
Proof. reflexivity. Qed.

Lemma match_plus_cons (c : ascii) (p : Re.regex) (x : ascii) (s : str)
      (g : bool) (acc : str) :
  Re.match_here (Re.PlusNot c :: p) (x :: s) g acc =
  if Ascii.eqb x c then None
  else match Re.match_here (Re.PlusNot c :: p) s g (Re.push g x acc) with
       | Some r => Some r
       | None => Re.match_here p s g (Re.push g x acc)
       end.
Proof. reflexivity. Qed.

Lemma match_lits_app (l : str) (p : Re.regex) (s acc : str) :
  Re.match_here (map Re.Lit l ++ p) (l ++ s) false acc =
  Re.match_here p s false acc.
Proof.
  induction l as [|c l IH]; simpl; [reflexivity|].
  rewrite Ascii.eqb_refl. apply IH.
Qed.

Lemma match_lits_inv (l : str) (p : Re.regex) (s acc r : str) :
  Re.match_here (map Re.Lit l ++ p) s false acc = Some r ->
  exists rest, s = l ++ rest /\ Re.match_here p rest false acc = Some r.
Proof.
  revert s; induction l as [|c l IH]; simpl; intros s H.
  - exists s; split; [reflexivity | exact H].
  - destruct s as [|x s]; [discriminate|].
    destruct (Ascii.eqb x c) eqn:E; [|discriminate].
    apply Ascii.eqb_eq in E; subst x.
    destruct (IH _ H) as [rest [-> Hr]].
    exists rest; split; [reflexivity | exact Hr].
Qed.

(** The tail of the area pattern, [[^/]+)$], takes a whole slash-free,
    non-empty remainder and nothing else. *)
Lemma match_segment_some (s acc : str) :
  s <> [] -> Spec.slash_free s = true ->
  Re.match_here [Re.PlusNot "/"%char; Re.Close; Re.Dollar] s true acc =
  Some (rev acc ++ s).
Proof.
  revert acc; induction s as [|x s IH]; intros acc Hne Hsf; [congruence|].
  simpl in Hsf. apply andb_true_iff in Hsf as [Hx Hs].
  rewrite match_plus_cons.
  apply negb_true_iff in Hx. rewrite Hx.
  destruct s as [|y s].
  - reflexivity.
  - rewrite IH by (congruence || exact Hs).
    simpl. now rewrite <- app_assoc.
Qed.

Lemma match_segment_inv (s acc r : str) :
  Re.match_here [Re.PlusNot "/"%char; Re.Close; Re.Dollar] s true acc = Some r ->
  s <> [] /\ Spec.slash_free s = true /\ r = rev acc ++ s.
Proof.
  revert acc r; induction s as [|x s IH]; intros acc r H; [discriminate|].
  rewrite match_plus_cons in H.
  destruct (Ascii.eqb x "/"%char) eqn:Hx; [discriminate|].
  destruct (Re.match_here _ s true (Re.push true x acc)) eqn:Hrec.
  - injection H as <-. apply IH in Hrec as [Hne [Hsf ->]].
    split; [congruence|]. split.
    + simpl. now rewrite Hx, Hsf.
    + simpl. now rewrite <- app_assoc.
  - clear IH. simpl in H.
    destruct s as [|y [|z s]]; simpl in H; try discriminate.
    + injection H as <-. split; [congruence|]. split.
      * simpl. now rewrite Hx.
      * simpl. reflexivity.
    + (* a final newline is taken by the greedy class before [$] is tried *)
      destruct (Ascii.eqb y "010"%char) eqn:Hy; [|discriminate].
      apply Ascii.eqb_eq in Hy; subst y. discriminate Hrec.
Qed.

Lemma match_area_inv (s r : str) :
  Re.match_here Re.area_pattern s false [] = Some r ->
  s = Str.lit "/resource/" ++ r /\ r <> [] /\ Spec.slash_free r = true.
Proof.
  unfold Re.area_pattern, Re.lits. intros H.
  apply match_lits_inv in H as [rest [-> H]].
  change (Re.match_here [Re.PlusNot "/"%char; Re.Close; Re.Dollar] rest true []
          = Some r) in H.
  apply match_segment_inv in H as [Hne [Hsf ->]]. simpl. auto.
Qed.

Lemma match_area_some (seg : str) :
  seg <> [] -> Spec.slash_free seg = true ->
  Re.match_here Re.area_pattern (Str.lit "/resource/" ++ seg) false [] = Some seg.
Proof.
  intros Hne Hsf. unfold Re.area_pattern, Re.lits.
  rewrite match_lits_app.
  change (Re.match_here [Re.PlusNot "/"%char; Re.Close; Re.Dollar] seg true []
          = Some seg).
  now rewrite match_segment_some.
Qed.

Lemma slash_free_app (a b : str) :
  Spec.slash_free (a ++ b) = Spec.slash_free a && Spec.slash_free b.
Proof. apply forallb_app. Qed.

Lemma search_here (p : Re.regex) (s r : str) :
  Re.match_here p s false [] = Some r -> Re.search p s = Some r.
Proof. intros H. destruct s; simpl; rewrite H; reflexivity. Qed.

Lemma search_skip (p : Re.regex) (c : ascii) (s : str) :
  Re.match_here p (c :: s) false [] = None ->
  Re.search p (c :: s) = Re.search p s.
Proof. intros H. simpl. rewrite H. reflexivity. Qed.

(** [search] finds the segment after the last "/resource/". *)
Lemma search_area_some (pre seg : str) :
  seg <> [] -> Spec.slash_free seg = true ->
  Re.search Re.area_pattern (pre ++ Str.lit "/resource/" ++ seg) = Some seg.
Proof.
  intros Hne Hsf. induction pre as [|c pre IH].
  - apply search_here, match_area_some; assumption.
  - change ((c :: pre) ++ Str.lit "/resource/" ++ seg)
      with (c :: pre ++ Str.lit "/resource/" ++ seg).
    destruct (Re.match_here Re.area_pattern
                (c :: pre ++ Str.lit "/resource/" ++ seg) false [])
      as [r|] eqn:Hm; [|rewrite (search_skip _ _ _ Hm); exact IH].
    exfalso. apply match_area_inv in Hm as [Hs [_ Hr]].
    assert (Hsuf : exists u, r = u ++ "/"%char :: seg).
    { exists (skipn 10 (c :: pre ++ Str.lit "/resource")).
      apply (f_equal (skipn 10)) in Hs.
      change (skipn 10 (Str.lit "/resource/" ++ r)) with r in Hs.
      rewrite <- Hs.
      replace (c :: pre ++ Str.lit "/resource/" ++ seg)
        with ((c :: pre ++ Str.lit "/resource") ++ "/"%char :: seg).
      2:{ simpl. rewrite <- !app_assoc. reflexivity. }
      rewrite skipn_app.
      assert (L : List.length (c :: pre ++ Str.lit "/resource")
                  = S (List.length pre + 9)).
      { cbn [List.length]. rewrite length_app. reflexivity. }
      replace (10 - List.length (c :: pre ++ Str.lit "/resource"))%nat
        with 0%nat by lia.
      reflexivity. }
    destruct Hsuf as [u ->].
    rewrite slash_free_app in Hr. simpl in Hr.
    rewrite andb_false_r in Hr. discriminate.
Qed.

Lemma search_area_inv (s r : str) :
  Re.search Re.area_pattern s = Some r ->
  exists pre, s = pre ++ Str.lit "/resource/" ++ r
              /\ r <> [] /\ Spec.slash_free r = true.
Proof.
  induction s as [|c s IH].
  - discriminate.
  - destruct (Re.match_here Re.area_pattern (c :: s) false []) eqn:Hm.
    + rewrite (search_here _ _ Hm). intros E; injection E as ->.
      apply match_area_inv in Hm as [Hs [Hne Hsf]].
      exists []. auto.
    + rewrite (search_skip _ _ _ Hm). intros H.
      destruct (IH H) as [pre [-> [Hne Hsf]]].
      exists (c :: pre). auto.
Qed.

Arguments Str.is_digit : simpl never.

(** [(\d{4})] at one position is a window of four digits. *)
Lemma match_year_here (s : str) :
  Re.match_here Re.year_pattern s false [] =
  if Spec.digit_run 4 (firstn 4 s) then Some (firstn 4 s) else None.
Proof.
  unfold Spec.digit_run.
  destruct s as [|a [|b [|c [|d t]]]]; cbn;
    repeat match goal with
           | |- context [Str.is_digit ?x] => destruct (Str.is_digit x); cbn
           end; reflexivity.
Qed.

(** [re.search] with [(\d{4})] returns the first 4-digit run. *)
Lemma search_year (s : str) :
  Re.search Re.year_pattern s = Spec.first_digits 4 s.
Proof.
  induction s as [|c s IH].
  - reflexivity.
  - unfold Re.search; fold Re.search. rewrite match_year_here.
    unfold Spec.first_digits; fold Spec.first_digits.
    destruct (Spec.digit_run 4 (firstn 4 (c :: s))); [reflexivity | exact IH].
Qed.

(** [(\d{2})-\d{4}] at one position. *)
Lemma match_month_here (s : str) :
  Re.match_here Re.month_pattern s false [] =
  if Spec.month_year_here s then Some (firstn 2 s) else None.
Proof.
  unfold Spec.month_year_here, Spec.digit_run.
  destruct s as [|m1 [|m2 [|dash [|y1 [|y2 [|y3 [|y4 t]]]]]]]; cbn;
    repeat match goal with
           | |- context [Str.is_digit ?x] => destruct (Str.is_digit x); cbn
           | |- context [Ascii.eqb ?x "-"%char] =>
               destruct (Ascii.eqb x "-"%char); cbn
           end; reflexivity.
Qed.

Lemma search_month (s : str) :
  Re.search Re.month_pattern s = Spec.month_before_year s.
Proof.
  induction s as [|c s IH].
  - reflexivity.
  - unfold Re.search; fold Re.search. rewrite match_month_here.
    unfold Spec.month_before_year; fold Spec.month_before_year.
    destruct (Spec.month_year_here (c :: s)); [reflexivity | exact IH].
Qed.

Lemma first_digits_run (n : nat) (s w : str) :
  Spec.first_digits n s = Some w -> Spec.digit_run n w = true.
Proof.
  induction s as [|c s IH]; simpl.
  - destruct (Spec.digit_run n (firstn n [])) eqn:E; [|discriminate].
    intros H; injection H as <-; exact E.
  - destruct (Spec.digit_run n (firstn n (c :: s))) eqn:E.
    + intros H; injection H as <-; exact E.
    + exact IH.
Qed.

Lemma month_before_year_run (s w : str) :
  Spec.month_before_year s = Some w -> Spec.digit_run 2 w = true.
Proof.
  induction s as [|c s IH]; simpl.
  - destruct (Spec.month_year_here []) eqn:E; [|discriminate]. discriminate E.
  - destruct (Spec.month_year_here (c :: s)) eqn:E.
    + intros H; injection H as <-.
      unfold Spec.month_year_here in E.
      apply andb_true_iff in E as [E _]. apply andb_true_iff in E as [E _].
      exact E.
    + exact IH.
Qed.

Lemma digit_run_int (n : nat) (w : str) :
  n <> 0%nat -> Spec.digit_run n w = true ->
  exists v, Str.int_of_digits w = Some v.
Proof.
  unfold Spec.digit_run, Str.int_of_digits. intros Hn H.
  apply andb_true_iff in H as [Hl Hd]. apply Nat.eqb_eq in Hl.
  rewrite Hd. destruct (Nat.eqb (List.length w) 0) eqn:E.
  - apply Nat.eqb_eq in E. congruence.
  - simpl. eauto.
Qed.

(** ** The loader, row by row *)

Arguments Str.int_of_digits : simpl never.

Lemma digit_run_4 (w : str) :
  Spec.digit_run 4 w = true -> exists a b c d, w = [a; b; c; d].
Proof.
  unfold Spec.digit_run. intros H. apply andb_true_iff in H as [H _].
  apply Nat.eqb_eq in H.
  destruct w as [|a [|b [|c [|d [|e t]]]]]; try discriminate. eauto.
Qed.

Lemma digit_run_2 (w : str) :
  Spec.digit_run 2 w = true -> exists a b, w = [a; b].
Proof.
  unfold Spec.digit_run. intros H. apply andb_true_iff in H as [H _].
  apply Nat.eqb_eq in H.
  destruct w as [|a [|b [|c t]]]; try discriminate. eauto.
Qed.

Lemma dropna_row_some (row : DerivedRow) (c : CleanRecord) :
  dropna_row row = Some c ->
  d_Date row = Some (Date c) /\ d_Year row = Some (Year c)
  /\ d_Month row = Some (Month c) /\ d_Governorate row = Some (Governorate c)
  /\ d_cases row = Some (cases c).
Proof.
  unfold dropna_row.
  destruct (d_Date row), (d_Year row), (d_Month row), (d_Governorate row),
    (d_cases row); try discriminate.
  intros H; injection H as <-. simpl. auto.
Qed.

Lemma dropna_row_none (row : DerivedRow) :
  d_Date row = None \/ d_Year row = None \/ d_Month row = None
  \/ d_Governorate row = None \/ d_cases row = None ->
  dropna_row row = None.
Proof.
  unfold dropna_row.
  destruct (d_Date row), (d_Year row), (d_Month row), (d_Governorate row),
    (d_cases row); intuition congruence.
Qed.

Lemma extract_year (cell : option str) :
  Re.extract Re.year_pattern cell = Spec.on_cell (Spec.first_digits 4) cell.
Proof. destruct cell; simpl; [apply search_year | reflexivity]. Qed.

Lemma extract_month (cell : option str) :
  Re.extract Re.month_pattern cell = Spec.on_cell Spec.month_before_year cell.
Proof. destruct cell; simpl; [apply search_month | reflexivity]. Qed.

Lemma on_cell_first_digits_run (cell : option str) (w : str) :
  Spec.on_cell (Spec.first_digits 4) cell = Some w -> Spec.digit_run 4 w = true.
Proof. destruct cell; simpl; [apply first_digits_run | discriminate]. Qed.

Lemma on_cell_month_run (cell : option str) (w : str) :
  Spec.on_cell Spec.month_before_year cell = Some w -> Spec.digit_run 2 w = true.
Proof. destruct cell; simpl; [apply month_before_year_run | discriminate]. Qed.

Section Loader.

Variable in_bounds : date -> bool.

Lemma load_data_app (a b : list RawRecord) :
  load_data in_bounds (a ++ b) = load_data in_bounds a ++ load_data in_bounds b.
Proof.
  unfold load_data, dropna, notna_cases.
  now rewrite filter_app, map_app, flat_map_app.
Qed.

Lemma load_data_single (r : RawRecord) :
  load_data in_bounds [r] =
  match Number_of_cases r with
  | None => []
  | Some _ =>
      match dropna_row (derive in_bounds r) with
      | Some c => [c]
      | None => []
      end
  end.
Proof.
  unfold load_data, dropna, notna_cases. simpl.
  destruct (Number_of_cases r); simpl; [|reflexivity].
  now rewrite app_nil_r.
Qed.

Lemma load_data_cons (r : RawRecord) (rest : list RawRecord) :
  load_data in_bounds (r :: rest) =
  load_data in_bounds [r] ++ load_data in_bounds rest.
Proof. apply (load_data_app [r] rest). Qed.

(** [to_datetime] on the string [Year + "-" + Month]. *)
Lemma to_datetime_year_month (yyyy mm : str) (Y M : Z) :
  Spec.digit_run 4 yyyy = true -> Spec.digit_run 2 mm = true ->
  Str.int_of_digits yyyy = Some Y -> Str.int_of_digits mm = Some M ->
  to_datetime in_bounds
    (Str.add (Str.add (Some yyyy) (Some (Str.lit "-"))) (Some mm)) =
  if (1 <=? M) && (M <=? 12) && in_bounds (mkdate Y M 1)
  then Some (mkdate Y M 1) else None.
Proof.
  intros Hy Hm HY HM.
  destruct (digit_run_4 _ Hy) as [a [b [c [d ->]]]].
  destruct (digit_run_2 _ Hm) as [e [f ->]].
  cbn. rewrite HY, HM. reflexivity.
Qed.

(** The [Date] cell of a derived row, from its [Year] and [Month] cells. *)
Lemma derive_date (r : RawRecord) (yyyy mm : str) (Y M : Z) :
  Spec.on_cell (Spec.first_digits 4) (refPeriod r) = Some yyyy ->
  Spec.on_cell Spec.month_before_year (refPeriod r) = Some mm ->
  Str.int_of_digits yyyy = Some Y -> Str.int_of_digits mm = Some M ->
  d_Date (derive in_bounds r) =
  if (1 <=? M) && (M <=? 12) && in_bounds (mkdate Y M 1)
  then Some (mkdate Y M 1) else None.
Proof.
  intros Hy Hm HY HM. unfold derive; cbn [d_Date].
  rewrite extract_year, extract_month, Hy, Hm.
  apply to_datetime_year_month; auto.
  - eapply on_cell_first_digits_run; eassumption.
  - eapply on_cell_month_run; eassumption.
Qed.

(** Every row of the clean table has the shape [month_start_row]. *)
Lemma derive_month_start (r : RawRecord) (c : CleanRecord) :
  dropna_row (derive in_bounds r) = Some c -> month_start_row c.
Proof.
  intros H. apply dropna_row_some in H as [Hd [Hy [Hm _]]].
  unfold derive in Hy, Hm; cbn [d_Year d_Month] in Hy, Hm.
  rewrite extract_year in Hy. rewrite extract_month in Hm.
  destruct (digit_run_int (n:=4) (Year c)) as [Y HY];
    [lia | eapply on_cell_first_digits_run; eassumption |].
  destruct (digit_run_int (n:=2) (Month c)) as [M HM];
    [lia | eapply on_cell_month_run; eassumption |].
  rewrite (derive_date r Hy Hm HY HM) in Hd.
  destruct ((1 <=? M) && (M <=? 12) && in_bounds (mkdate Y M 1)) eqn:E;
    [|discriminate].
  injection Hd as Hd. apply andb_true_iff in E as [E _].
  apply andb_true_iff in E as [E1 E2].
  unfold month_start_row. rewrite <- Hd; simpl. rewrite HY, HM.
  repeat split; lia.
Qed.

Lemma load_data_month_start (csv : list RawRecord) :
  Forall month_start_row (load_data in_bounds csv).
Proof.
  induction csv as [|r csv IH].
  - constructor.
  - rewrite load_data_cons. apply Forall_app; split; [|exact IH].
    rewrite load_data_single.
    destruct (Number_of_cases r); [|constructor].
    destruct (dropna_row (derive in_bounds r)) eqn:E; [|constructor].
    constructor; [|constructor]. eapply derive_month_start; eassumption.
Qed.

End Loader.

(** A record all of whose derivations succeed gives one row. *)
Lemma load_data_present_row (in_bounds : date -> bool) (r : RawRecord)
    (pre seg mm yyyy : str) (c : Q) (Y M : Z) :
  Number_of_cases r = Some c ->
  refArea r = Some (pre ++ Str.lit "/resource/" ++ seg) ->
  seg <> [] -> Spec.slash_free seg = true ->
  Spec.on_cell Spec.month_before_year (refPeriod r) = Some mm ->
  Spec.on_cell (Spec.first_digits 4) (refPeriod r) = Some yyyy ->
  Str.int_of_digits yyyy = Some Y -> Str.int_of_digits mm = Some M ->
  1 <= M <= 12 -> in_bounds (mkdate Y M 1) = true ->
  load_data in_bounds [r] =
  [mkClean (mkdate Y M 1) yyyy mm (Str.replace "_" " " seg) c].
Proof.
  intros Hc Ha Hne Hsf Hm Hy HY HM HM12 Hb.
  rewrite load_data_single, Hc.
  assert (Hrow : dropna_row (derive in_bounds r) =
                 Some (mkClean (mkdate Y M 1) yyyy mm (Str.replace "_" " " seg) c)).
  { unfold dropna_row.
    rewrite (derive_date in_bounds r Hy Hm HY HM).
    replace ((1 <=? M) && (M <=? 12) && in_bounds (mkdate Y M 1)) with true
      by (symmetry; rewrite Hb, andb_true_r; apply andb_true_iff; split;
          apply Z.leb_le; lia).
    unfold derive; cbn [d_Year d_Month d_Governorate d_cases].
    rewrite extract_year, extract_month, Hy, Hm, Ha, Hc.
    cbn [Re.extract]. rewrite (search_area_some pre Hne Hsf). reflexivity. }
  rewrite Hrow. reflexivity.
Qed.

(** ** C1: what [load_data] keeps *)

(** C1 (as amended).  A raw record with a non-null case count, a [refArea]
    ending in "/resource/" followed by a non-empty slash-free segment, and a
    [refPeriod] with a 2-digit run before "-" and a 4-digit year, whose first
    4-digit run and 2-digit run spell a month 01..12 of a year a [Timestamp]
    can hold, gives exactly one row of the clean table, at its place: the
    Governorate is the segment with underscores turned into spaces, Year is
    the first 4-digit run, Month the 2-digit run, Date the first day of that
    month.  A record with a null case count, or for which one of these
    derivations fails, gives no row. *)
Theorem load_data_keeps_exactly_the_derivable_rows
    (in_bounds : date -> bool) (before after : list RawRecord) (r : RawRecord) :
  (forall (pre seg mm yyyy : str) (c : Q) (Y M : Z),
      Number_of_cases r = Some c ->
      refArea r = Some (pre ++ Str.lit "/resource/" ++ seg) ->
      seg <> [] -> Spec.slash_free seg = true ->
      Spec.on_cell Spec.month_before_year (refPeriod r) = Some mm ->
      Spec.on_cell (Spec.first_digits 4) (refPeriod r) = Some yyyy ->
      Str.int_of_digits yyyy = Some Y -> Str.int_of_digits mm = Some M ->
      1 <= M <= 12 -> in_bounds (mkdate Y M 1) = true ->
      load_data in_bounds (before ++ r :: after) =
      load_data in_bounds before
      ++ mkClean (mkdate Y M 1) yyyy mm (Str.replace "_" " " seg) c
         :: load_data in_bounds after)
  /\
  (Number_of_cases r = None
   \/ (forall pre seg, refArea r = Some (pre ++ Str.lit "/resource/" ++ seg) ->
                       seg = [] \/ Spec.slash_free seg = false)
   \/ Spec.on_cell Spec.month_before_year (refPeriod r) = None
   \/ Spec.on_cell (Spec.first_digits 4) (refPeriod r) = None
   \/ (forall yyyy mm Y M,
          Spec.on_cell (Spec.first_digits 4) (refPeriod r) = Some yyyy ->
          Spec.on_cell Spec.month_before_year (refPeriod r) = Some mm ->
          Str.int_of_digits yyyy = Some Y -> Str.int_of_digits mm = Some M ->
          ~ (1 <= M <= 12 /\ in_bounds (mkdate Y M 1) = true)) ->
   load_data in_bounds (before ++ r :: after) =
   load_data in_bounds before ++ load_data in_bounds after).
Proof.
  split.
  - intros pre seg mm yyyy c Y M Hc Ha Hne Hsf Hm Hy HY HM HM12 Hb.
    rewrite load_data_app, load_data_cons.
    rewrite (@load_data_present_row in_bounds r pre seg mm yyyy c Y M
               Hc Ha Hne Hsf Hm Hy HY HM HM12 Hb).
    reflexivity.
  - intros H. rewrite load_data_app, load_data_cons, load_data_single.
    destruct (Number_of_cases r) as [c|] eqn:Hc; [|reflexivity].
    assert (Hrow : dropna_row (derive in_bounds r) = None);
      [|rewrite Hrow; reflexivity].
    apply dropna_row_none.
    destruct H as [H | [H | [H | [H | H]]]].
    + discriminate.
    + right; right; right; left.
      unfold derive; cbn [d_Governorate].
      destruct (refArea r) as [a|]; [|reflexivity]. cbn [Re.extract].
      destruct (Re.search Re.area_pattern a) as [g|] eqn:Hs; [|reflexivity].
      apply search_area_inv in Hs as [pre [-> [Hne Hsf]]].
      destruct (H pre g eq_refl); congruence.
    + right; right; left.
      unfold derive; cbn [d_Month]. now rewrite extract_month.
    + right; left.
      unfold derive; cbn [d_Year]. now rewrite extract_year.
    + destruct (Spec.on_cell (Spec.first_digits 4) (refPeriod r)) as [yyyy|] eqn:Hy.
      2:{ right; left. unfold derive; cbn [d_Year]. now rewrite extract_year. }
      destruct (Spec.on_cell Spec.month_before_year (refPeriod r)) as [mm|] eqn:Hm.
      2:{ right; right; left. unfold derive; cbn [d_Month].
          now rewrite extract_month. }
      destruct (digit_run_int (n:=4) yyyy) as [Y HY];
        [lia | eapply on_cell_first_digits_run; eassumption |].
      destruct (digit_run_int (n:=2) mm) as [M HM];
        [lia | eapply on_cell_month_run; eassumption |].
      left. rewrite (derive_date in_bounds r Hy Hm HY HM).
      destruct ((1 <=? M) && (M <=? 12) && in_bounds (mkdate Y M 1)) eqn:E;
        [|reflexivity].
      exfalso. apply (H yyyy mm Y M eq_refl eq_refl HY HM).
      apply andb_true_iff in E as [E Hb]. apply andb_true_iff in E as [E1 E2].
      split; [lia | exact Hb].
Qed.

(** C1, witness: the Beirut record of January 2020 between two other
    records, and a record with no URL, which is dropped. *)
Lemma load_data_keeps_exactly_the_derivable_rows_witness :
  load_data Calendar.ns_bounds
    ([] ++ mkRaw (Some (Str.lit "http://data.gov.lb/resource/Mount_Lebanon"))
                 (Some (Str.lit "01-2020")) (Some 10%Q) :: []) =
  [mkClean (mkdate 2020 1 1) (Str.lit "2020") (Str.lit "01")
           (Str.lit "Mount Lebanon") 10%Q]
  /\ load_data Calendar.ns_bounds
       ([] ++ mkRaw (Some (Str.lit "badformat")) (Some (Str.lit "01-2020"))
                    (Some 10%Q) :: []) = [].
Proof.
  split.
  - apply (proj1 (load_data_keeps_exactly_the_derivable_rows
                    Calendar.ns_bounds [] []
                    (mkRaw (Some (Str.lit "http://data.gov.lb/resource/Mount_Lebanon"))
                           (Some (Str.lit "01-2020")) (Some 10%Q)))
             (Str.lit "http://data.gov.lb") (Str.lit "Mount_Lebanon")
             (Str.lit "01") (Str.lit "2020") 10%Q 2020 1);
      try reflexivity; try discriminate; lia.
  - apply (proj2 (load_data_keeps_exactly_the_derivable_rows
                    Calendar.ns_bounds [] []
                    (mkRaw (Some (Str.lit "badformat")) (Some (Str.lit "01-2020"))
                           (Some 10%Q)))).
    right; left. intros pre seg H. exfalso.
    simpl in H. injection H as H.
    apply (f_equal (@List.length ascii)) in H.
    rewrite !length_app in H. simpl in H. lia.
Defined.

(** C1 as stated fails: a 2-digit run before a 4-digit year need not be a
    month.  "13-2020" passes both extractions, [to_datetime] coerces
    "2020-13" to NaT and [dropna] removes the row, whatever the range of
    [Timestamp]. *)
Lemma load_data_drops_month_13 :
  let r := mkRaw (Some (Str.lit "http://data.gov.lb/resource/Beirut"))
                 (Some (Str.lit "13-2020")) (Some 10%Q) in
  Number_of_cases r = Some 10%Q
  /\ refArea r = Some (Str.lit "http://data.gov.lb" ++ Str.lit "/resource/"
                       ++ Str.lit "Beirut")
  /\ Spec.on_cell Spec.month_before_year (refPeriod r) = Some (Str.lit "13")
  /\ Spec.on_cell (Spec.first_digits 4) (refPeriod r) = Some (Str.lit "2020")
  /\ load_data (fun _ => true) [r] = [].
Proof. repeat split. Qed.

(** ** Sums of rationals *)

Lemma fold_Qplus_acc (l : list Q) (a : Q) :
  (fold_left Qplus l a == a + fold_left Qplus l 0)%Q.
Proof.
  revert a; induction l as [|x l IH]; intros a; simpl.
  - ring.
  - rewrite (IH (a + x)%Q), (IH (0 + x)%Q). ring.
Qed.

Lemma sum_nil : Frame.sum [] = 0%Q.
Proof. reflexivity. Qed.

Lemma sum_cons (x : Q) (l : list Q) :
  (Frame.sum (x :: l) == x + Frame.sum l)%Q.
Proof.
  unfold Frame.sum; simpl. rewrite fold_Qplus_acc. ring.
Qed.

Lemma sum_app (l l' : list Q) :
  (Frame.sum (l ++ l') == Frame.sum l + Frame.sum l')%Q.
Proof.
  induction l as [|x l IH]; simpl.
  - rewrite sum_nil. ring.
  - rewrite !sum_cons, IH. ring.
Qed.

Lemma sum_perm (l l' : list Q) :
  Permutation l l' -> (Frame.sum l == Frame.sum l')%Q.
Proof.
  induction 1.
  - reflexivity.
  - rewrite !sum_cons, IHPermutation. reflexivity.
  - rewrite !sum_cons. ring.
  - etransitivity; eassumption.
Qed.

(** ** [groupby] *)

Section GroupByFacts.

Variables R K : Type.
Variable cmp : K -> K -> comparison.
Variable key : R -> K.
Variable val : R -> Q.

Hypothesis cmp_eq : forall a b, cmp a b = Eq <-> a = b.
Hypothesis cmp_antisym : forall a b, cmp a b = CompOpp (cmp b a).
Hypothesis cmp_trans :
  forall a b c, cmp a b = Lt -> cmp b c = Lt -> cmp a c = Lt.

Lemma cmp_refl (a : K) : cmp a a = Eq.
Proof using cmp_eq. apply cmp_eq; reflexivity. Qed.

Lemma cmp_gt_lt (a b : K) : cmp a b = Gt -> cmp b a = Lt.
Proof using cmp_antisym. intros H. rewrite cmp_antisym, H. reflexivity. Qed.

Lemma put_keys (k : K) (v : Q) (gs : list (K * list Q)) (h : K * list Q) :
  In h (Frame.put cmp k v gs) -> fst h = k \/ In (fst h) (map fst gs).
Proof using cmp_eq.
  induction gs as [|[k' vs] t IH]; simpl.
  - intros [<- | []]; auto.
  - destruct (cmp k k') eqn:E; simpl.
    + intros [<- | H]; simpl; auto. right; right. now apply in_map.
    + intros [<- | [<- | H]]; simpl; auto. right; right. now apply in_map.
    + intros [<- | H]; simpl; auto. destruct (IH H); auto.
Qed.

Lemma put_ascending (k : K) (v : Q) (gs : list (K * list Q)) :
  ascending cmp gs -> ascending cmp (Frame.put cmp k v gs).
Proof using cmp_eq cmp_antisym cmp_trans.
  unfold ascending. induction gs as [|[k' vs] t IH]; simpl; intros Hs.
  - repeat constructor.
  - inversion Hs as [|g l Ht Hall]; subst.
    destruct (cmp k k') eqn:E.
    + constructor; [exact Ht | exact Hall].
    + constructor; [exact Hs|].
      constructor; [exact E|].
      eapply Forall_impl; [|exact Hall]. simpl. intros h Hh.
      eapply cmp_trans; eassumption.
    + constructor; [apply IH; exact Ht|].
      apply Forall_forall. intros h Hh. simpl.
      destruct (put_keys _ _ _ _ Hh) as [-> | Hin].
      * now apply cmp_gt_lt.
      * apply in_map_iff in Hin as [h' [Hf Hin]].
        rewrite Forall_forall in Hall. rewrite <- Hf. apply (Hall h' Hin).
Qed.

Lemma lookup_below (V : Type) (k : K) (l : list (K * V)) :
  Forall (fun h => cmp k (fst h) = Lt) l -> Frame.lookup cmp k l = None.
Proof.
  induction 1 as [|[k' v] l H _ IH]; simpl; [reflexivity|].
  simpl in H. rewrite H. exact IH.
Qed.

Lemma lookup_put (k k' : K) (v : Q) (gs : list (K * list Q)) :
  ascending cmp gs ->
  Frame.lookup cmp k (Frame.put cmp k' v gs) =
  match cmp k k' with
  | Eq => Some (match Frame.lookup cmp k gs with Some vs => vs | None => [] end
                ++ [v])
  | _ => Frame.lookup cmp k gs
  end.
Proof using cmp_eq cmp_antisym cmp_trans.
  unfold ascending. induction gs as [|[k0 vs] t IH]; intros Hs.
  - simpl. destruct (cmp k k'); reflexivity.
  - inversion Hs as [|g l Ht Hall]; subst. simpl.
    destruct (cmp k' k0) eqn:E0.
    + apply cmp_eq in E0; subst k0. simpl.
      destruct (cmp k k'); reflexivity.
    + simpl. destruct (cmp k k') eqn:E; try reflexivity.
      apply cmp_eq in E; subst k'. rewrite E0.
      rewrite lookup_below; [reflexivity|].
      eapply Forall_impl; [|exact Hall]. simpl. intros h Hh.
      eapply cmp_trans; eassumption.
    + simpl. destruct (cmp k k0) eqn:E1.
      * apply cmp_eq in E1; subst k0. rewrite (cmp_gt_lt E0). reflexivity.
      * apply IH; exact Ht.
      * apply IH; exact Ht.
Qed.

Lemma fold_put_ascending (df : list R) (acc : list (K * list Q)) :
  ascending cmp acc ->
  ascending cmp (fold_left (fun gs r => Frame.put cmp (key r) (val r) gs) df acc).
Proof using cmp_eq cmp_antisym cmp_trans.
  revert acc; induction df as [|r df IH]; intros acc Ha; simpl; [exact Ha|].
  apply IH, put_ascending, Ha.
Qed.

Lemma groupby_ascending (df : list R) :
  ascending cmp (Frame.groupby cmp key val df).
Proof using cmp_eq cmp_antisym cmp_trans.
  apply fold_put_ascending. constructor.
Qed.

Lemma lookup_fold_put (k : K) (df : list R) (acc : list (K * list Q)) :
  ascending cmp acc ->
  Frame.lookup cmp k
    (fold_left (fun gs r => Frame.put cmp (key r) (val r) gs) df acc) =
  extend (Frame.lookup cmp k acc) (map val (rows_of cmp key k df)).
Proof using cmp_eq cmp_antisym cmp_trans.
  revert acc; induction df as [|r df IH]; intros acc Ha; simpl; [reflexivity|].
  rewrite IH by (apply put_ascending; exact Ha).
  rewrite lookup_put by exact Ha.
  destruct (cmp (key r) k) eqn:E.
  - apply cmp_eq in E; subst k. rewrite cmp_refl. simpl.
    destruct (map val (rows_of cmp key (key r) df)); simpl.
    + reflexivity.
    + now rewrite <- app_assoc.
  - rewrite cmp_antisym, E. reflexivity.
  - rewrite cmp_antisym, E. reflexivity.
Qed.

(** The group of [k] holds the values of the rows with key [k], in row
    order; a key with no row has no group. *)
Lemma lookup_groupby (k : K) (df : list R) :
  Frame.lookup cmp k (Frame.groupby cmp key val df) =
  match rows_of cmp key k df with
  | [] => None
  | rs => Some (map val rs)
  end.
Proof using cmp_eq cmp_antisym cmp_trans.
  unfold Frame.groupby. rewrite lookup_fold_put by constructor.
  simpl. destruct (rows_of cmp key k df); reflexivity.
Qed.

Lemma lookup_in (V : Type) (k : K) (v : V) (l : list (K * V)) :
  Frame.lookup cmp k l = Some v -> In (k, v) l.
Proof using cmp_eq.
  induction l as [|[k' v'] l IH]; simpl; [discriminate|].
  destruct (cmp k k') eqn:E; auto.
  apply cmp_eq in E; subst. intros H; injection H as ->. auto.
Qed.

Lemma in_lookup (V : Type) (k : K) (v : V) (l : list (K * V)) :
  ascending cmp l -> In (k, v) l -> Frame.lookup cmp k l = Some v.
Proof using cmp_eq cmp_antisym.
  unfold ascending. induction 1 as [|[k' v'] l Hs IH Hall]; simpl; [tauto|].
  intros [E | Hin].
  - injection E as -> ->. now rewrite cmp_refl.
  - rewrite Forall_forall in Hall. specialize (Hall _ Hin). simpl in Hall.
    rewrite cmp_antisym, Hall. simpl. auto.
Qed.

Lemma ascending_NoDup (V : Type) (l : list (K * V)) :
  ascending cmp l -> NoDup (map fst l).
Proof using cmp_eq.
  unfold ascending. induction 1 as [|[k v] l Hs IH Hall]; simpl; constructor;
    [|exact IH].
  intros Hin. apply in_map_iff in Hin as [h [Hf Hin]].
  rewrite Forall_forall in Hall. specialize (Hall _ Hin). simpl in Hall.
  rewrite Hf, cmp_refl in Hall. discriminate.
Qed.

Lemma agg_keys (f : list Q -> Q) (gs : list (K * list Q)) :
  map fst (Frame.agg f gs) = map fst gs.
Proof. unfold Frame.agg. rewrite map_map. reflexivity. Qed.

Lemma agg_ascending (f : list Q -> Q) (gs : list (K * list Q)) :
  ascending cmp gs -> ascending cmp (Frame.agg f gs).
Proof.
  unfold ascending, Frame.agg. induction 1 as [|g l Hs IH Hall]; simpl;
    constructor; [exact IH|].
  apply Forall_map. eapply Forall_impl; [|exact Hall]. auto.
Qed.

Lemma lookup_agg (f : list Q -> Q) (k : K) (gs : list (K * list Q)) :
  Frame.lookup cmp k (Frame.agg f gs) = option_map f (Frame.lookup cmp k gs).
Proof.
  induction gs as [|[k' vs] t IH]; simpl; [reflexivity|].
  destruct (cmp k k'); auto.
Qed.

(** Conservation of the total: the group sums add up to the column sum. *)
Lemma sum_put (k : K) (v : Q) (gs : list (K * list Q)) :
  (Frame.sum (map snd (Frame.agg Frame.sum (Frame.put cmp k v gs)))
   == Frame.sum (map snd (Frame.agg Frame.sum gs)) + v)%Q.
Proof.
  induction gs as [|[k' vs] t IH]; simpl.
  - rewrite !sum_cons, !sum_nil. ring.
  - destruct (cmp k k'); simpl.
    + rewrite !sum_cons, sum_app, sum_cons, sum_nil. ring.
    + rewrite !sum_cons, sum_nil. ring.
    + rewrite !sum_cons, IH. ring.
Qed.

Lemma sum_fold_put (df : list R) (acc : list (K * list Q)) :
  (Frame.sum (map snd (Frame.agg Frame.sum
      (fold_left (fun gs r => Frame.put cmp (key r) (val r) gs) df acc)))
   == Frame.sum (map snd (Frame.agg Frame.sum acc)) + Frame.sum (map val df))%Q.
Proof.
  revert acc; induction df as [|r df IH]; intros acc; simpl.
  - rewrite sum_nil. ring.
  - rewrite IH, sum_put, sum_cons. ring.
Qed.

Lemma sum_groupby (df : list R) :
  (Frame.sum (map snd (Frame.agg Frame.sum (Frame.groupby cmp key val df)))
   == Frame.sum (map val df))%Q.
Proof.
  unfold Frame.groupby. rewrite sum_fold_put. simpl. rewrite sum_nil. ring.
Qed.

(** The keys of the groups are the keys of the rows. *)
Lemma groupby_key_row (k : K) (df : list R) :
  In k (map fst (Frame.groupby cmp key val df)) ->
  exists r, In r df /\ key r = k.
Proof using cmp_eq cmp_antisym cmp_trans.
  intros Hin. apply in_map_iff in Hin as [[k' vs] [Hk Hin]]. simpl in Hk; subst k'.
  apply (in_lookup k vs (groupby_ascending df)) in Hin.
  rewrite lookup_groupby in Hin.
  destruct (rows_of cmp key k df) as [|r rs] eqn:E; [discriminate|].
  assert (Hr : In r (rows_of cmp key k df)) by (rewrite E; left; reflexivity).
  apply filter_In in Hr as [Hr Hc]. exists r; split; [exact Hr|].
  destruct (cmp (key r) k) eqn:Ec; try discriminate. now apply cmp_eq.
Qed.

Lemma groupby_row_key (r : R) (df : list R) :
  In r df -> In (key r) (map fst (Frame.groupby cmp key val df)).
Proof using cmp_eq cmp_antisym cmp_trans.
  intros Hr.
  assert (Hf : In r (rows_of cmp key (key r) df)).
  { apply filter_In; split; [exact Hr|]. now rewrite cmp_refl. }
  pose proof (lookup_groupby (key r) df) as Hl.
  destruct (rows_of cmp key (key r) df) as [|r0 rs]; [destruct Hf|].
  apply lookup_in in Hl.
  apply in_map_iff. eexists; split; [|exact Hl]. reflexivity.
Qed.

End GroupByFacts.

(** ** [sort_values] *)

Section SortFacts.

Variables E C : Type.
Variable col : E -> C.
Variable leb : C -> C -> bool.

Lemma insert_perm (x : E) (l : list E) :
  Permutation (Frame.insert col leb x l) (x :: l).
Proof.
  induction l as [|y l IH]; simpl; [reflexivity|].
  destruct (leb (col x) (col y)); [reflexivity|].
  rewrite IH. apply perm_swap.
Qed.

Lemma sort_values_perm (l : list E) :
  Permutation (Frame.sort_values col leb l) l.
Proof.
  induction l as [|x l IH]; simpl; [reflexivity|].
  rewrite insert_perm. now constructor.
Qed.

(** A frame already in order is left as it is. *)
Lemma sort_values_sorted (l : list E) :
  StronglySorted (fun a b => leb (col a) (col b) = true) l ->
  Frame.sort_values col leb l = l.
Proof.
  induction 1 as [|x l Hs IH Hall]; simpl; [reflexivity|].
  rewrite IH. destruct l as [|y l]; simpl; [reflexivity|].
  inversion Hall as [|? ? Hxy _]; subst. now rewrite Hxy.
Qed.

Hypothesis leb_total : forall a b, leb a b = false -> leb b a = true.

Lemma insert_sorted (x : E) (l : list E) :
  Sorted (fun a b => leb (col a) (col b) = true) l ->
  Sorted (fun a b => leb (col a) (col b) = true) (Frame.insert col leb x l).
Proof using leb_total.
  induction l as [|y l IH]; simpl; intros Hs.
  - repeat constructor.
  - destruct (leb (col x) (col y)) eqn:E0.
    + constructor; [exact Hs | constructor; exact E0].
    + inversion Hs as [|? ? Hl Hhd]; subst.
      constructor; [apply IH; exact Hl|].
      destruct l as [|z l]; simpl.
      * constructor. now apply leb_total.
      * destruct (leb (col x) (col z)).
        -- constructor. now apply leb_total.
        -- inversion Hhd; subst. now constructor.
Qed.

Lemma sort_values_ordered (l : list E) :
  Sorted (fun a b => leb (col a) (col b) = true) (Frame.sort_values col leb l).
Proof using leb_total.
  induction l as [|x l IH]; simpl; [constructor|].
  apply insert_sorted, IH.
Qed.

End SortFacts.

Lemma Qle_bool_total (a b : Q) : Qle_bool a b = false -> Qle_bool b a = true.
Proof.
  intros H. apply Qle_bool_iff.
  destruct (Qlt_le_dec a b) as [Hlt | Hle]; [|exact Hle].
  apply Qlt_le_weak, Qle_bool_iff in Hlt. congruence.
Qed.

Lemma str_compare_eqb (a b : str) :
  match Str.compare a b with Eq => true | _ => false end = Str.eqb a b.
Proof.
  destruct (Str.compare a b) eqn:E.
  - apply str_compare_eq in E. subst. now rewrite str_eqb_refl.
  - destruct (Str.eqb a b) eqn:E'; [|reflexivity].
    apply str_eqb_eq in E'. apply str_compare_eq in E'. congruence.
  - destruct (Str.eqb a b) eqn:E'; [|reflexivity].
    apply str_eqb_eq in E'. apply str_compare_eq in E'. congruence.
Qed.

(** ** C3: conservation of the total *)

(** C3.  On every filtered table the values of the by-date view and the
    values of the by-region view both add up to the sum of the column
    [Number of cases]. *)
Theorem grouped_totals_equal_column_total
    (df : list CleanRecord) (selected_years selected_govs : list str) :
  let f := df_filtered df selected_years selected_govs in
  (Frame.sum (map snd (trend f)) == Frame.sum (map snd (gov_data f)))%Q
  /\ (Frame.sum (map snd (trend f)) == Frame.sum (map cases f))%Q
  /\ (Frame.sum (map snd (gov_data f)) == Frame.sum (map cases f))%Q.
Proof.
  intros f.
  assert (Ht : (Frame.sum (map snd (trend f)) == Frame.sum (map cases f))%Q)
    by apply sum_groupby.
  assert (Hg : (Frame.sum (map snd (gov_data f)) == Frame.sum (map cases f))%Q).
  { unfold gov_data.
    rewrite (sum_perm (Permutation_map snd (sort_values_perm _ _ _))).
    apply sum_groupby. }
  repeat split; [|exact Ht | exact Hg].
  rewrite Ht, Hg. reflexivity.
Qed.

(** ** C9: the by-region view *)

(** C9.  The by-region view has one entry per Governorate of the filtered
    table, the value of an entry is the sum of [Number of cases] over all
    rows of that Governorate, and the entries are in ascending order of
    these sums. *)
Theorem gov_data_sums_each_region_and_ranks
    (df : list CleanRecord) (selected_years selected_govs : list str) :
  let f := df_filtered df selected_years selected_govs in
  (forall g, In g (map fst (gov_data f)) <-> exists r, In r f /\ Governorate r = g)
  /\ NoDup (map fst (gov_data f))
  /\ (forall g s, In (g, s) (gov_data f) ->
        s = Frame.sum (map cases (filter (fun r => Str.eqb (Governorate r) g) f)))
  /\ StronglySorted (fun a b => (snd a <= snd b)%Q) (gov_data f).
Proof.
  intros f.
  set (S := Frame.agg Frame.sum (Frame.groupby Str.compare Governorate cases f)).
  assert (Hasc : ascending Str.compare S).
  { apply agg_ascending, groupby_ascending.
    - apply str_compare_eq.
    - apply str_compare_antisym.
    - apply str_compare_lt_trans. }
  assert (Hperm : Permutation (gov_data f) S) by apply sort_values_perm.
  assert (Hlook : forall g, Frame.lookup Str.compare g S =
            match filter (fun r => Str.eqb (Governorate r) g) f with
            | [] => None
            | rs => Some (Frame.sum (map cases rs))
            end).
  { intros g. unfold S. rewrite lookup_agg.
    rewrite (@lookup_groupby _ _ Str.compare Governorate cases str_compare_eq
               str_compare_antisym str_compare_lt_trans).
    unfold rows_of.
    rewrite (filter_ext _ (fun r => Str.eqb (Governorate r) g))
      by (intros r; apply str_compare_eqb).
    destruct (filter _ f); reflexivity. }
  repeat split.
  - intros Hin. apply in_map_iff in Hin as [[g' s] [Hg Hin]]. simpl in Hg; subst g'.
    apply (Permutation_in _ Hperm) in Hin.
    apply (in_lookup str_compare_eq str_compare_antisym _ _ Hasc) in Hin.
    rewrite Hlook in Hin.
    destruct (filter (fun r => Str.eqb (Governorate r) g) f) as [|r rs] eqn:Ef;
      [discriminate|].
    exists r. assert (Hr : In r (filter (fun r => Str.eqb (Governorate r) g) f))
      by (rewrite Ef; left; reflexivity).
    apply filter_In in Hr as [Hr Hg]. apply str_eqb_eq in Hg. auto.
  - intros [r [Hr Hg]].
    assert (Hf : In r (filter (fun r => Str.eqb (Governorate r) g) f)).
    { apply filter_In; split; [exact Hr|]. subst g. apply str_eqb_refl. }
    specialize (Hlook g).
    destruct (filter (fun r => Str.eqb (Governorate r) g) f) as [|r0 rs];
      [destruct Hf|].
    apply (lookup_in Str.compare str_compare_eq) in Hlook.
    apply (Permutation_in _ (Permutation_sym Hperm)) in Hlook.
    apply in_map_iff. eexists; split; [|exact Hlook]. reflexivity.
  - apply (Permutation_NoDup (Permutation_sym (Permutation_map fst Hperm))).
    eapply ascending_NoDup; [apply str_compare_eq | exact Hasc].
  - intros g s Hin.
    apply (Permutation_in _ Hperm) in Hin.
    apply (in_lookup str_compare_eq str_compare_antisym _ _ Hasc) in Hin.
    rewrite Hlook in Hin.
    destruct (filter (fun r => Str.eqb (Governorate r) g) f); [discriminate|].
    now injection Hin as <-.
  - apply Sorted_StronglySorted.
    + intros a b c Hab Hbc. eapply Qle_trans; eassumption.
    + unfold gov_data. fold S.
      eapply Sorted_ind with (P := fun l =>
        Sorted (fun a b => (snd a <= snd b)%Q) l).
      3: apply (sort_values_ordered (@snd str Q) Qle_bool Qle_bool_total S).
      * constructor.
      * intros a l _ IH Hhd. constructor; [exact IH|].
        destruct Hhd; constructor. now apply Qle_bool_iff.
Qed.

(** C9, witness: two Beirut rows and one Bekaa row; the Beirut entry is
    10 + 20. *)
Lemma gov_data_sums_each_region_and_ranks_witness :
  let df := [mkClean (mkdate 2020 1 1) (Str.lit "2020") (Str.lit "01")
                     (Str.lit "Beirut") 10%Q;
             mkClean (mkdate 2020 1 1) (Str.lit "2020") (Str.lit "01")
                     (Str.lit "Bekaa") 5%Q;
             mkClean (mkdate 2020 2 1) (Str.lit "2020") (Str.lit "02")
                     (Str.lit "Beirut") 20%Q] in
  let f := df_filtered df [Str.lit "2020"] [Str.lit "Beirut"; Str.lit "Bekaa"] in
  In (Str.lit "Beirut") (map fst (gov_data f))
  /\ forall s, In (Str.lit "Beirut", s) (gov_data f) -> s = Frame.sum [10%Q; 20%Q].
Proof.
  intros df f.
  destruct (gov_data_sums_each_region_and_ranks df [Str.lit "2020"]
              [Str.lit "Beirut"; Str.lit "Bekaa"]) as [Hkeys [_ [Hsum _]]].
  split.
  - apply Hkeys.
    exists (mkClean (mkdate 2020 1 1) (Str.lit "2020") (Str.lit "01")
                    (Str.lit "Beirut") 10%Q).
    split; [left; reflexivity | reflexivity].
  - intros s Hs. exact (Hsum _ _ Hs).
Defined.

Unset Implicit Arguments.

(** ** The calendar *)

Lemma days_before_year_step (y y' : Z) :
  y < y' -> Calendar.days_before_year y + 365 <= Calendar.days_before_year y'.
Proof.
  unfold Calendar.days_before_year. intros H.
  Z.to_euclidean_division_equations; lia.
Qed.

Lemma days_before_month_bounds (y m : Z) :
  0 <= Calendar.days_before_month y m <= 335.
Proof.
  unfold Calendar.days_before_month.
  destruct ((2 <? m) && Calendar.is_leap y);
    destruct m as [|p|p]; try lia;
    repeat (destruct p as [p|p|]; try lia).
Qed.

Lemma month_cases (m : Z) :
  1 <= m <= 12 ->
  m = 1 \/ m = 2 \/ m = 3 \/ m = 4 \/ m = 5 \/ m = 6 \/
  m = 7 \/ m = 8 \/ m = 9 \/ m = 10 \/ m = 11 \/ m = 12.
Proof. lia. Qed.

Lemma days_before_month_lt (y m m' : Z) :
  1 <= m -> m < m' -> m' <= 12 ->
  Calendar.days_before_month y m < Calendar.days_before_month y m'.
Proof.
  intros H1 H2 H3.
  assert (Hm : 1 <= m <= 12) by lia. assert (Hm' : 1 <= m' <= 12) by lia.
  apply month_cases in Hm, Hm'.
  unfold Calendar.days_before_month.
  destruct (Calendar.is_leap y);
    repeat (destruct Hm as [Hm | Hm]); subst m;
    repeat (destruct Hm' as [Hm' | Hm']); subst m'; simpl; lia.
Qed.

Lemma days_in_month_ge_28 (y m : Z) :
  1 <= m <= 12 -> 28 <= Calendar.days_in_month y m.
Proof.
  intros Hm. apply month_cases in Hm. unfold Calendar.days_in_month.
  destruct (Calendar.is_leap y);
    repeat (destruct Hm as [Hm | Hm]); subst m; simpl; lia.
Qed.

(** On first days of a month the ordinal grows with the date. *)
Lemma toordinal_lt (a b : date) :
  month_start a -> month_start b ->
  Calendar.compare a b = Lt -> Calendar.toordinal a < Calendar.toordinal b.
Proof.
  intros [Hda Hma] [Hdb Hmb] Hlt. apply date_compare_lt_iff in Hlt.
  unfold Calendar.toordinal. rewrite Hda, Hdb.
  destruct Hlt as [Hy | [Hy [Hm | [_ Hd]]]]; [| |lia].
  - pose proof (days_before_year_step _ _ Hy).
    pose proof (days_before_month_bounds (year a) (month a)).
    pose proof (days_before_month_bounds (year b) (month b)). lia.
  - rewrite Hy.
    pose proof (days_before_month_lt (year b) (month a) (month b)). lia.
Qed.

Lemma add_months_month_start (d : date) (n : Z) :
  month_start d -> month_start (Calendar.add_months d n).
Proof.
  intros [Hd Hm]. unfold month_start, Calendar.add_months; simpl.
  assert (Hm1 : 1 <= (month d - 1 + n) mod 12 + 1 <= 12)
    by (pose proof (Z.mod_pos_bound (month d - 1 + n) 12); lia).
  split; [|exact Hm1].
  pose proof (days_in_month_ge_28 (year d + (month d - 1 + n) / 12) _ Hm1). lia.
Qed.

(** Six offsets from the last date are six steps of one calendar month. *)
Lemma add_months_step (d : date) (i : Z) :
  month_start d ->
  Calendar.add_months (Calendar.add_months d i) 1 = Calendar.add_months d (i + 1).
Proof.
  intros Hs. pose proof (add_months_month_start d i Hs) as [Hd1 _].
  pose proof (add_months_month_start d (i + 1) Hs) as [Hd2 _].
  unfold Calendar.add_months in *. simpl in *.
  rewrite Hd1, Hd2.
  assert (Ey : year d + (month d - 1 + i) / 12
                 + ((month d - 1 + i) mod 12 + 1 - 1 + 1) / 12
               = year d + (month d - 1 + (i + 1)) / 12)
    by (Z.to_euclidean_division_equations; lia).
  assert (Em : ((month d - 1 + i) mod 12 + 1 - 1 + 1) mod 12 + 1
               = (month d - 1 + (i + 1)) mod 12 + 1)
    by (Z.to_euclidean_division_equations; lia).
  rewrite Ey, Em.
  f_equal.
  pose proof (add_months_month_start d (i + 1) Hs) as [_ Hm2]. simpl in Hm2.
  pose proof (days_in_month_ge_28 (year d + (month d - 1 + (i + 1)) / 12) _ Hm2).
  lia.
Qed.

Lemma add_months_later (d : date) (n : Z) :
  month_start d -> 0 < n ->
  Calendar.compare d (Calendar.add_months d n) = Lt.
Proof.
  intros Hs Hn. pose proof (add_months_month_start d n Hs) as [Hd1 _].
  destruct Hs as [Hd Hm].
  apply date_compare_lt_iff. unfold Calendar.add_months in *. simpl in *.
  Z.to_euclidean_division_equations; lia.
Qed.

(** ** [Series.max] on dates *)

Lemma max_date_none (l : list date) : Frame.max_date l = None <-> l = [].
Proof.
  destruct l as [|d l]; simpl; [tauto|].
  destruct (Frame.max_date l); split; discriminate.
Qed.

Lemma max_date_is_max (l : list date) (m : date) :
  Frame.max_date l = Some m ->
  In m l /\ forall d, In d l -> Calendar.compare d m <> Gt.
Proof.
  revert m; induction l as [|x l IH]; intros m; simpl; [discriminate|].
  destruct (Frame.max_date l) as [m'|] eqn:E.
  - destruct (IH m' eq_refl) as [Hin Hmax]. unfold Calendar.ltb.
    destruct (Calendar.compare x m') eqn:Ec; intros H; injection H as <-.
    + split; [auto|]. intros d [<- | Hd];
        [rewrite (proj2 (date_compare_eq x x) eq_refl); discriminate|].
      apply date_compare_eq in Ec; subst. auto.
    + split; [auto|]. intros d [<- | Hd]; [congruence | auto].
    + split; [auto|]. intros d [<- | Hd];
        [rewrite (proj2 (date_compare_eq x x) eq_refl); discriminate|].
      specialize (Hmax d Hd). intros Hgt.
      destruct (Calendar.compare d m') eqn:Ed; [| |congruence].
      * apply date_compare_eq in Ed; subst. rewrite date_compare_antisym, Ec in Hgt.
        discriminate.
      * rewrite date_compare_antisym in Ec.
        assert (Hm'x : Calendar.compare m' x = Lt)
          by (destruct (Calendar.compare m' x); simpl in Ec; congruence).
        rewrite (date_compare_lt_trans _ _ _ Ed Hm'x) in Hgt. discriminate.
  - apply max_date_none in E; subst l. intros H; injection H as <-.
    split; [auto|]. intros d [<- | []].
    rewrite (proj2 (date_compare_eq x x) eq_refl); discriminate.
Qed.

(** ** The by-date view and the regression series *)

Lemma trend_ascending (df : list CleanRecord) :
  ascending Calendar.compare (trend df).
Proof.
  apply agg_ascending, groupby_ascending.
  - apply date_compare_eq.
  - apply date_compare_antisym.
  - apply date_compare_lt_trans.
Qed.

Lemma trend_date_row (df : list CleanRecord) (d : date) :
  In d (map fst (trend df)) <-> exists r, In r df /\ Date r = d.
Proof.
  unfold trend. rewrite agg_keys. split.
  - apply groupby_key_row.
    + apply date_compare_eq.
    + apply date_compare_antisym.
    + apply date_compare_lt_trans.
  - intros [r [Hr <-]]. apply groupby_row_key; [| | |exact Hr].
    + apply date_compare_eq.
    + apply date_compare_antisym.
    + apply date_compare_lt_trans.
Qed.

Lemma filtered_month_start (in_bounds : date -> bool) (csv : list RawRecord)
    (ys gs : list str) :
  Forall month_start_row (df_filtered (load_data in_bounds csv) ys gs).
Proof.
  apply Forall_forall. intros r Hr. apply filter_In in Hr as [Hr _].
  pose proof (load_data_month_start in_bounds csv) as H.
  rewrite Forall_forall in H. auto.
Qed.

Lemma trend_month_start (df : list CleanRecord) :
  Forall month_start_row df ->
  Forall month_start (map fst (trend df)).
Proof.
  intros H. apply Forall_forall. intros d Hd.
  apply trend_date_row in Hd as [r [Hr <-]].
  rewrite Forall_forall in H. destruct (H r Hr) as [H1 [H2 _]].
  split; assumption.
Qed.

(** [sort_values("Date")] finds the grouped frame already in date order. *)
Lemma monthly_cases_trend (df : list CleanRecord) :
  monthly_cases df =
  map (fun p => mkSeries (fst p) (snd p) (Calendar.toordinal (fst p))) (trend df).
Proof.
  unfold monthly_cases. fold (trend df). f_equal.
  apply sort_values_sorted.
  pose proof (trend_ascending df) as H. unfold ascending in H.
  induction H as [|p l Hs IH Hall]; constructor; [exact IH|].
  eapply Forall_impl; [|exact Hall]. intros q Hq. simpl in Hq.
  unfold Calendar.ltb. rewrite date_compare_antisym, Hq. reflexivity.
Qed.

Lemma ascending_ordinals (l : list (date * Q)) :
  ascending Calendar.compare l -> Forall month_start (map fst l) ->
  StronglySorted Z.lt (map Calendar.toordinal (map fst l)).
Proof.
  unfold ascending. induction 1 as [|p l Hs IH Hall]; simpl; intros Hm;
    constructor; inversion Hm as [|? ? Hp Hl]; subst.
  - apply IH, Hl.
  - rewrite Forall_forall in Hall, Hl. apply Forall_forall. intros o Ho.
    apply in_map_iff in Ho as [d [<- Hd]].
    pose proof (Hl d Hd) as Hds.
    apply in_map_iff in Hd as [q [<- Hq]].
    apply toordinal_lt; auto.
Qed.

(** C8.  The regression series is the by-date view with one more column:
    its (Date, total) pairs are those of [trend], in the same order, each
    with the ordinal of its date, and the ordinals increase strictly along
    the series, as the dates do. *)
Theorem monthly_cases_is_trend_with_ordinals
    (in_bounds : date -> bool) (csv : list RawRecord)
    (selected_years selected_govs : list str) :
  let f := df_filtered (load_data in_bounds csv) selected_years selected_govs in
  map (fun s => (s_Date s, s_cases s)) (monthly_cases f) = trend f
  /\ map s_Ordinal (monthly_cases f) = map Calendar.toordinal (map fst (trend f))
  /\ StronglySorted (fun a b => Calendar.compare a b = Lt)
       (map s_Date (monthly_cases f))
  /\ StronglySorted Z.lt (map s_Ordinal (monthly_cases f)).
Proof.
  intros f. rewrite monthly_cases_trend, !map_map. simpl.
  assert (E1 : map (fun x : date * Q => (fst x, snd x)) (trend f) = trend f).
  { rewrite <- (map_id (trend f)) at 2. apply map_ext. now intros [d q]. }
  split; [exact E1|]. split; [reflexivity|]. split.
  - pose proof (trend_ascending f) as H. unfold ascending in H. clear E1.
    induction H as [|p l Hs IH Hall]; simpl; [constructor|].
    constructor; [exact IH|]. apply Forall_map. exact Hall.
  - rewrite <- (map_map fst Calendar.toordinal).
    apply ascending_ordinals; [apply trend_ascending|].
    apply trend_month_start, filtered_month_start.
Qed.

(** ** The forecast block *)

Lemma trend_nil (df : list CleanRecord) : trend df = [] <-> df = [].
Proof.
  split.
  - intros H. destruct df as [|r df]; [reflexivity|]. exfalso.
    assert (Hin : In (Date r) (map fst (trend (r :: df))))
      by (apply trend_date_row; exists r; simpl; auto).
    rewrite H in Hin. exact Hin.
  - intros ->. reflexivity.
Qed.

Lemma fit_nonempty (x : Z) (X : list Z) (y : list Q) :
  exists m, LinearRegression.fit (x :: X) y = Ok m.
Proof. unfold LinearRegression.fit. eexists; reflexivity. Qed.

Lemma monthly_cases_dates (df : list CleanRecord) :
  map s_Date (monthly_cases df) = map fst (trend df).
Proof. rewrite monthly_cases_trend, map_map. reflexivity. Qed.

Lemma monthly_cases_ordinals (df : list CleanRecord) :
  map s_Ordinal (monthly_cases df) = map Calendar.toordinal (map fst (trend df)).
Proof. rewrite monthly_cases_trend, !map_map. reflexivity. Qed.

Lemma monthly_cases_values (df : list CleanRecord) :
  map s_cases (monthly_cases df) = map snd (trend df).
Proof. rewrite monthly_cases_trend, map_map. reflexivity. Qed.

Lemma Ok_inj (A : Type) (a b : A) : Ok a = Ok b -> a = b.
Proof. intros H. injection H as ->. reflexivity. Qed.

(** The comprehension over the six offsets yields the six shifted dates
    when a Timestamp can hold each of them, and raises otherwise. *)
Lemma comprehension_add_offset (in_bounds : date -> bool) (d : date) (l : list Z) :
  comprehension (add_offset in_bounds d) l =
  if forallb in_bounds (map (Calendar.add_months d) l)
  then Ok (map (Calendar.add_months d) l)
  else Raise OutOfBoundsDatetime.
Proof.
  induction l as [|i l IH]; [reflexivity|].
  cbn [comprehension map forallb]. unfold add_offset at 1. cbv zeta.
  destruct (in_bounds (Calendar.add_months d i)); cbn [bind andb]; [|reflexivity].
  rewrite IH.
  destruct (forallb in_bounds (map (Calendar.add_months d) l)); reflexivity.
Qed.

(** On an empty frame [fit] raises; on any other it returns a model, and
    the block yields its predictions at the six dates after the last one
    when a Timestamp can hold them, and raises otherwise. *)
Lemma forecast_nil (in_bounds : date -> bool) (df : list CleanRecord) :
  trend df = [] -> forecast in_bounds df = Raise ValueError.
Proof.
  intros H. unfold forecast. rewrite monthly_cases_trend, H. reflexivity.
Qed.

Lemma forecast_nonempty (in_bounds : date -> bool) (df : list CleanRecord) :
  trend df <> [] ->
  exists model last_date,
    LinearRegression.fit (map s_Ordinal (monthly_cases df))
                         (map s_cases (monthly_cases df)) = Ok model
    /\ Frame.max_date (map fst (trend df)) = Some last_date
    /\ future_dates_in_bounds in_bounds df =
       forallb in_bounds (map (Calendar.add_months last_date) horizon)
    /\ forecast in_bounds df =
       if future_dates_in_bounds in_bounds df
       then Ok (map (fun d => (d, LinearRegression.predict model
                                    (Calendar.toordinal d)))
                  (map (Calendar.add_months last_date) horizon))
       else Raise OutOfBoundsDatetime.
Proof.
  intros Hne. unfold forecast, future_dates_in_bounds.
  rewrite monthly_cases_dates.
  destruct (Frame.max_date (map fst (trend df))) as [last|] eqn:Emax.
  2:{ apply max_date_none in Emax. apply map_eq_nil in Emax. contradiction. }
  rewrite monthly_cases_ordinals.
  destruct (map Calendar.toordinal (map fst (trend df))) as [|x X] eqn:EX.
  { apply map_eq_nil, map_eq_nil in EX. contradiction. }
  destruct (fit_nonempty x X (map s_cases (monthly_cases df))) as [m Hm].
  exists m, last. rewrite Hm. cbn [bind]. rewrite comprehension_add_offset.
  repeat split.
  destruct (forallb in_bounds (map (Calendar.add_months last) horizon));
    reflexivity.
Qed.

(** On a frame that is not empty the block returns when the six coming
    months are in range, and raises at the date arithmetic otherwise. *)
Lemma forecast_in_range (in_bounds : date -> bool) (df : list CleanRecord) :
  trend df <> [] -> future_dates_in_bounds in_bounds df = true ->
  exists model last_date,
    LinearRegression.fit (map s_Ordinal (monthly_cases df))
                         (map s_cases (monthly_cases df)) = Ok model
    /\ Frame.max_date (map fst (trend df)) = Some last_date
    /\ forecast in_bounds df =
       Ok (map (fun d => (d, LinearRegression.predict model
                               (Calendar.toordinal d)))
             (map (Calendar.add_months last_date) horizon)).
Proof.
  intros Hne Hin.
  destruct (forecast_nonempty in_bounds df Hne) as [m [last [Hfit [Hmax [_ Hfc]]]]].
  rewrite Hin in Hfc. exists m, last. auto.
Qed.

Lemma forecast_out_of_range (in_bounds : date -> bool) (df : list CleanRecord) :
  trend df <> [] -> future_dates_in_bounds in_bounds df = false ->
  forecast in_bounds df = Raise OutOfBoundsDatetime.
Proof.
  intros Hne Hout.
  destruct (forecast_nonempty in_bounds df Hne) as [m [last [_ [_ [_ Hfc]]]]].
  rewrite Hout in Hfc. exact Hfc.
Qed.

(** The block returns only on a frame that is not empty with the six
    coming months in range. *)
Lemma forecast_ok_inv (in_bounds : date -> bool) (df : list CleanRecord)
    (out : list (date * Q)) :
  forecast in_bounds df = Ok out ->
  trend df <> [] /\ future_dates_in_bounds in_bounds df = true.
Proof.
  intros H. split.
  - intros E. rewrite (forecast_nil in_bounds df E) in H. discriminate.
  - destruct (future_dates_in_bounds in_bounds df) eqn:E; [reflexivity|].
    rewrite forecast_out_of_range in H; [discriminate| |exact E].
    intros E'. rewrite (forecast_nil in_bounds df E') in H. discriminate.
Qed.

(** ** C5: a selection that matches no row *)

(** C5 (as amended).  An empty year set or an empty region set selects no
    row, and when a selection matches no row the filter returns the empty
    frame, the Total Cases KPI is 0, the by-date and by-region series are
    empty, the by-month series has its twelve entries, all missing, and no
    aggregation raises; the forecast block raises at [fit], which refuses
    an empty sample, so the run of the script ends there. *)
Theorem empty_selection_views
    (in_bounds : date -> bool)
    (df : list CleanRecord) (selected_years selected_govs : list str) :
  df_filtered df [] selected_govs = []
  /\ df_filtered df selected_years [] = []
  /\ (df_filtered df selected_years selected_govs = [] ->
      let f := df_filtered df selected_years selected_govs in
      total_cases f = 0
      /\ trend f = []
      /\ gov_data f = []
      /\ monthly_avg f = Ok (map (fun m => (m, None)) month_order)
      /\ forecast in_bounds f = Raise ValueError
      /\ dashboard in_bounds f = Raise ValueError).
Proof.
  split; [|split].
  - unfold df_filtered. induction df as [|r df IH]; simpl; auto.
  - unfold df_filtered. induction df as [|r df IH]; simpl; [reflexivity|].
    rewrite andb_false_r. exact IH.
  - intros H f. subst f. rewrite H. repeat split.
Qed.

(** C5, witness: the year 1999 matches no row of a one-row table. *)
Lemma empty_selection_views_witness :
  let df := load_data Calendar.ns_bounds
              [mkRaw (Some (Str.lit "http://data.gov.lb/resource/Beirut"))
                     (Some (Str.lit "01-2020")) (Some 10%Q)] in
  let f := df_filtered df [Str.lit "1999"] [Str.lit "Beirut"] in
  total_cases f = 0
  /\ trend f = []
  /\ gov_data f = []
  /\ monthly_avg f = Ok (map (fun m => (m, None)) month_order)
  /\ forecast Calendar.ns_bounds f = Raise ValueError
  /\ dashboard Calendar.ns_bounds f = Raise ValueError.
Proof.
  intros df.
  apply (proj2 (proj2 (empty_selection_views Calendar.ns_bounds df
                         [Str.lit "1999"] [Str.lit "Beirut"]))).
  reflexivity.
Defined.

(** C5 as stated fails: with no matching row the forecast stage raises. *)
Lemma empty_selection_forecast_raises :
  let df := load_data Calendar.ns_bounds
              [mkRaw (Some (Str.lit "http://data.gov.lb/resource/Beirut"))
                     (Some (Str.lit "01-2020")) (Some 10%Q)] in
  let f := df_filtered df [Str.lit "1999"] [Str.lit "Beirut"] in
  f = []
  /\ forecast Calendar.ns_bounds f = Raise ValueError
  /\ dashboard Calendar.ns_bounds f = Raise ValueError
  /\ monthly_avg f <> Ok [].
Proof. repeat split. discriminate. Qed.

(** ** C6: fewer than two dates *)

(** With one sample the centred [X] is zero: the slope is 0 and the
    intercept is the one observed value. *)
Lemma fit_single (x : Z) (c : Q) :
  exists b, LinearRegression.fit [x] [c] = Ok (LinearRegression.mkmodel 0 b)
            /\ (b == c)%Q.
Proof.
  unfold LinearRegression.fit, LinearRegression.centred_lstsq, Frame.mean, Frame.sum.
  cbn [map combine List.length fold_left fst snd].
  match goal with
  | |- context [Qeq_bool ?s 0] => assert (Hs : Qeq_bool s 0 = true)
  end.
  { apply Qeq_bool_iff. change (inject_Z (Z.of_nat 1)) with 1%Q. field. }
  rewrite Hs. eexists; split; [reflexivity|].
  change (inject_Z (Z.of_nat 1)) with 1%Q. field.
Qed.




(** ** C10: every date is the first of its month *)

Lemma last_date_month_start (df : list CleanRecord) (last : date) :
  Forall month_start_row df ->
  Frame.max_date (map fst (trend df)) = Some last -> month_start last.
Proof.
  intros Hdf Hmax. apply max_date_is_max in Hmax as [Hin _].
  pose proof (trend_month_start df Hdf) as H.
  rewrite Forall_forall in H. auto.
Qed.



(** ** C7: the by-month view *)

Arguments strftime_B : simpl never.

Lemma month_names_distinct (i j : Z) :
  1 <= i <= 12 -> 1 <= j <= 12 ->
  match Str.compare (strftime_B j)
                    (strftime_B i) with
  | Eq => true
  | _ => false
  end = (j =? i).
Proof.
  intros Hi Hj. apply month_cases in Hi, Hj.
  repeat (destruct Hi as [Hi | Hi]); subst i;
    repeat (destruct Hj as [Hj | Hj]); subst j; reflexivity.
Qed.

Lemma month_name_of_row (r : CleanRecord) :
  month_start_row r ->
  month_name (Month r) = Ok (strftime_B (month (Date r))).
Proof.
  intros [_ [Hm [Hi _]]]. unfold month_name. rewrite Hi.
  replace ((1 <=? month (Date r)) && (month (Date r) <=? 12)) with true;
    [reflexivity|].
  symmetry. apply andb_true_iff; split; apply Z.leb_le; lia.
Qed.

(** On a table of the loader the new column never fails to parse. *)
Lemma with_month_name_ok (df : list CleanRecord) :
  Forall month_start_row df ->
  with_month_name df =
  Ok (map (fun r => (r, strftime_B (month (Date r)))) df).
Proof.
  induction 1 as [|r df Hr Hdf IH]; simpl; [reflexivity|].
  rewrite (month_name_of_row r Hr), IH. reflexivity.
Qed.

Lemma rows_of_month_name (df : list CleanRecord) (i : Z) :
  Forall month_start_row df -> 1 <= i <= 12 ->
  rows_of Str.compare (@snd CleanRecord str) (strftime_B i)
    (map (fun r => (r, strftime_B (month (Date r)))) df)
  = map (fun r => (r, strftime_B (month (Date r))))
      (rows_of_month i df).
Proof.
  intros Hdf Hi. unfold rows_of, rows_of_month.
  induction Hdf as [|r df Hr Hdf IH]; simpl; [reflexivity|].
  destruct Hr as [_ [Hm [Hint _]]]. rewrite Hint.
  rewrite (month_names_distinct i (month (Date r)) Hi Hm).
  destruct (month (Date r) =? i); simpl; rewrite IH; reflexivity.
Qed.

Lemma month_entry (df : list CleanRecord) (i : Z) :
  Forall month_start_row df -> 1 <= i <= 12 ->
  let label := strftime_B i in
  month_entry_ok df i
    (label,
     Frame.lookup Str.compare label
       (Frame.agg Frame.mean
          (Frame.groupby Str.compare (@snd CleanRecord str)
             (fun p => cases (fst p))
             (map (fun r => (r, strftime_B (month (Date r))))
                df)))).
Proof.
  intros Hdf Hi label. split; [reflexivity|]. cbn [snd].
  rewrite lookup_agg.
  rewrite (lookup_groupby Str.compare (@snd CleanRecord str)
             (fun p => cases (fst p)) str_compare_eq str_compare_antisym
             str_compare_lt_trans).
  unfold label. rewrite (rows_of_month_name df i Hdf Hi).
  destruct (rows_of_month i df) as [|r rs] eqn:E; cbn [map option_map].
  - reflexivity.
  - split; [discriminate|]. f_equal. f_equal. rewrite map_map. reflexivity.
Qed.

(** C7.  After reindexing, the by-month view of a filtered table has
    exactly twelve entries, labelled January to December in that order;
    the entry of a month that occurs in the table is the arithmetic mean of
    [Number of cases] over the rows of that month, and the entry of a month
    that does not occur is missing (NaN), not zero. *)
Theorem monthly_avg_has_twelve_ordered_entries
    (in_bounds : date -> bool) (csv : list RawRecord)
    (selected_years selected_govs : list str) :
  let f := df_filtered (load_data in_bounds csv) selected_years selected_govs in
  exists v,
    monthly_avg f = Ok v
    /\ List.length v = 12%nat
    /\ map fst v = month_order
    /\ Forall2 (month_entry_ok f) [1; 2; 3; 4; 5; 6; 7; 8; 9; 10; 11; 12] v.
Proof.
  intros f.
  assert (Hf : Forall month_start_row f) by apply filtered_month_start.
  unfold monthly_avg. rewrite (with_month_name_ok f Hf). cbn [bind].
  eexists; split; [reflexivity|]. split; [reflexivity|]. split.
  - unfold Frame.reindex. rewrite map_map. cbn [fst]. apply map_id.
  - unfold Frame.reindex.
    repeat (apply Forall2_cons;
            [match goal with
             | |- month_entry_ok _ ?i _ => apply (month_entry f i Hf); lia
             end|]).
    apply Forall2_nil.
Qed.

(** ** C4: the Beirut scenario *)

(** C4 (as amended).  For the two records (refArea ending
    "/resource/Beirut", refPeriod "01-2020", 10 cases) and (the same area,
    "02-2020", 20 cases) the clean table has exactly two rows, of
    Governorate "Beirut" and Dates 2020-01 and 2020-02, the by-date view is
    2020-01: 10, 2020-02: 20, and the line fitted on the day ordinals of
    the two dates predicts 910/31 (about 29.35) at 2020-03: January has 31
    days and February 2020 has 29. *)
Theorem beirut_scenario (pre1 pre2 : str) :
  let csv := [mkRaw (Some (pre1 ++ Str.lit "/resource/Beirut"))
                    (Some (Str.lit "01-2020")) (Some 10%Q);
              mkRaw (Some (pre2 ++ Str.lit "/resource/Beirut"))
                    (Some (Str.lit "02-2020")) (Some 20%Q)] in
  let df := load_data Calendar.ns_bounds csv in
  df = [mkClean (mkdate 2020 1 1) (Str.lit "2020") (Str.lit "01")
                (Str.lit "Beirut") 10%Q;
        mkClean (mkdate 2020 2 1) (Str.lit "2020") (Str.lit "02")
                (Str.lit "Beirut") 20%Q]
  /\ trend df = [(mkdate 2020 1 1, 10%Q); (mkdate 2020 2 1, 20%Q)]
  /\ exists v rest,
       forecast Calendar.ns_bounds df = Ok ((mkdate 2020 3 1, v) :: rest) /\ (v == 910 # 31)%Q.
Proof.
  intros csv df.
  assert (Hdf : df = [mkClean (mkdate 2020 1 1) (Str.lit "2020") (Str.lit "01")
                              (Str.lit "Beirut") 10%Q;
                      mkClean (mkdate 2020 2 1) (Str.lit "2020") (Str.lit "02")
                              (Str.lit "Beirut") 20%Q]).
  { unfold df, csv. rewrite load_data_cons.
    rewrite (@load_data_present_row Calendar.ns_bounds _
               pre1 (Str.lit "Beirut") (Str.lit "01") (Str.lit "2020") 10%Q 2020 1);
      try reflexivity; try discriminate; try lia.
    rewrite (@load_data_present_row Calendar.ns_bounds _
               pre2 (Str.lit "Beirut") (Str.lit "02") (Str.lit "2020") 20%Q 2020 2);
      try reflexivity; try discriminate; try lia. }
  rewrite Hdf. split; [reflexivity|]. split; [reflexivity|].
  eexists; eexists; split; [vm_compute; reflexivity|].
  reflexivity.
Qed.

(** C4 as stated fails: the extrapolation to 2020-03 is not 30. *)
Lemma beirut_march_forecast_is_not_30 :
  let df := load_data Calendar.ns_bounds
              [mkRaw (Some (Str.lit "http://data.gov.lb/resource/Beirut"))
                     (Some (Str.lit "01-2020")) (Some 10%Q);
               mkRaw (Some (Str.lit "http://data.gov.lb/resource/Beirut"))
                     (Some (Str.lit "02-2020")) (Some 20%Q)] in
  trend df = [(mkdate 2020 1 1, 10%Q); (mkdate 2020 2 1, 20%Q)]
  /\ map Calendar.toordinal [mkdate 2020 1 1; mkdate 2020 2 1; mkdate 2020 3 1]
     = [737425; 737456; 737485]
  /\ exists v rest,
       forecast Calendar.ns_bounds df = Ok ((mkdate 2020 3 1, v) :: rest)
       /\ (v == 910 # 31)%Q /\ ~ (v == 30)%Q.
Proof.
  split; [reflexivity|]. split; [reflexivity|].
  eexists; eexists; split; [vm_compute; reflexivity|].
  split; [reflexivity|]. intros H. discriminate H.
Qed.

(** ** Least squares *)

Section LeastSquares.

Local Open Scope Q_scope.

Lemma sigma_nil f : sigma f [] = 0.
Proof. reflexivity. Qed.

Lemma sigma_cons f p ps : sigma f (p :: ps) == f p + sigma f ps.
Proof. unfold sigma. simpl map. apply sum_cons. Qed.

Lemma sigma_ext f g ps : (forall p, In p ps -> f p == g p) -> sigma f ps == sigma g ps.
Proof.
  induction ps as [|p ps IH]; intros H; [reflexivity|].
  assert (H1 : f p == g p) by (apply H; simpl; auto).
  assert (H2 : sigma f ps == sigma g ps) by (apply IH; intros; apply H; simpl; auto).
  rewrite !sigma_cons, H1, H2. reflexivity.
Qed.

Lemma sigma_add f g ps : sigma (fun p => f p + g p) ps == sigma f ps + sigma g ps.
Proof.
  induction ps as [|p ps IH]; [rewrite !sigma_nil; ring|].
  rewrite !sigma_cons, IH. ring.
Qed.

Lemma sigma_scale c f ps : sigma (fun p => c * f p) ps == c * sigma f ps.
Proof.
  induction ps as [|p ps IH]; [rewrite !sigma_nil; ring|].
  rewrite !sigma_cons, IH. ring.
Qed.

Lemma size_cons p ps : size (p :: ps) == 1 + size ps.
Proof.
  unfold size. cbn [List.length]. rewrite Nat2Z.inj_succ, <- Z.add_1_l, inject_Z_plus.
  reflexivity.
Qed.

Lemma sigma_const c ps : sigma (fun _ => c) ps == size ps * c.
Proof.
  induction ps as [|p ps IH]; [rewrite sigma_nil; unfold size; simpl; ring|].
  rewrite sigma_cons, IH, size_cons. ring.
Qed.

Lemma size_pos p ps : 0 < size (p :: ps).
Proof.
  unfold size. change 0 with (inject_Z 0). rewrite <- Zlt_Qlt. simpl. lia.
Qed.

Lemma sigma_nonneg f ps : (forall p, 0 <= f p) -> 0 <= sigma f ps.
Proof.
  intros H. induction ps as [|p ps IH]; [rewrite sigma_nil; apply Qle_refl|].
  rewrite sigma_cons. specialize (H p). lra.
Qed.

Lemma sigma_zero f ps :
  (forall p, 0 <= f p) -> sigma f ps == 0 -> forall p, In p ps -> f p == 0.
Proof.
  intros H. induction ps as [|q ps IH]; intros Hs p Hp; [destruct Hp|].
  rewrite sigma_cons in Hs.
  pose proof (H q). pose proof (sigma_nonneg f ps H).
  destruct Hp as [<- | Hp]; [lra|]. apply IH; [lra | exact Hp].
Qed.

Lemma Qsq_nonneg (x : Q) : 0 <= x * x.
Proof.
  destruct (Qlt_le_dec x 0) as [H | H].
  - setoid_replace (x * x) with ((- x) * (- x)) by ring.
    apply Qmult_le_0_compat; lra.
  - apply Qmult_le_0_compat; exact H.
Qed.

Lemma sigma_centred_x ps : ps <> [] -> sigma (fun p => xq p - xbar ps) ps == 0.
Proof.
  intros Hne.
  rewrite (sigma_ext _ (fun p => xq p + (-1) * xbar ps))
    by (intros; ring).
  rewrite sigma_add, sigma_const. unfold xbar.
  destruct ps as [|p ps]; [congruence|].
  pose proof (size_pos p ps). field. lra.
Qed.

Lemma sigma_centred_y ps : ps <> [] -> sigma (fun p => snd p - ybar ps) ps == 0.
Proof.
  intros Hne.
  rewrite (sigma_ext _ (fun p => snd p + (-1) * ybar ps))
    by (intros; ring).
  rewrite sigma_add, sigma_const. unfold ybar.
  destruct ps as [|p ps]; [congruence|].
  pose proof (size_pos p ps). field. lra.
Qed.

Lemma slope_normal ps : slope ps * sxx ps == sxy ps.
Proof.
  unfold slope. destruct (Qeq_bool (sxx ps) 0) eqn:E.
  - apply Qeq_bool_iff in E.
    assert (Hz : forall p, In p ps -> xq p - xbar ps == 0).
    { intros p Hp.
      pose proof (sigma_zero (fun p => (xq p - xbar ps) * (xq p - xbar ps)) ps) as H.
      assert (H0 : (xq p - xbar ps) * (xq p - xbar ps) == 0).
      { apply H; [|exact E|exact Hp]. intros q. apply Qsq_nonneg. }
      apply Qmult_integral in H0. tauto. }
    rewrite E. unfold sxy.
    rewrite (sigma_ext _ (fun _ => 0)); [rewrite sigma_const; ring|].
    intros p Hp. rewrite (Hz p Hp). ring.
  - apply Qeq_bool_neq in E. field. exact E.
Qed.

Lemma sse_decomposition ps a' b' :
  ps <> [] ->
  let a := slope ps in
  let b := ybar ps - xbar ps * a in
  let al := a - a' in
  let be := (b - b') + al * xbar ps in
  sigma (res a' b') ps ==
  sigma (res a b) ps
  + sigma (fun p => (al * (xq p - xbar ps) + be) * (al * (xq p - xbar ps) + be)) ps.
Proof.
  intros Hne a b al be.
  set (r := fun p : Z * Q => (snd p - ybar ps) - a * (xq p - xbar ps)).
  assert (Hr0 : sigma r ps == 0).
  { unfold r.
    rewrite (sigma_ext _ (fun p => (snd p - ybar ps) + (- a) * (xq p - xbar ps)))
      by (intros; ring).
    rewrite sigma_add, sigma_scale, sigma_centred_x, sigma_centred_y by exact Hne. ring. }
  assert (Hrx : sigma (fun p => r p * (xq p - xbar ps)) ps == 0).
  { unfold r.
    rewrite (sigma_ext _ (fun p => (xq p - xbar ps) * (snd p - ybar ps)
                               + (- a) * ((xq p - xbar ps) * (xq p - xbar ps))))
      by (intros; ring).
    rewrite sigma_add, sigma_scale. fold (sxy ps) (sxx ps).
    unfold a. rewrite <- (slope_normal ps). ring. }
  rewrite (sigma_ext (res a' b')
             (fun p => (res a b p + (2 * al) * (r p * (xq p - xbar ps)))
                       + ((2 * be) * r p
                          + (al * (xq p - xbar ps) + be) * (al * (xq p - xbar ps) + be)))).
  2:{ intros p _. unfold res, r, be, al, b. ring. }
  rewrite !sigma_add, !sigma_scale, Hr0, Hrx. ring.
Qed.

Lemma least_squares ps a' b' :
  ps <> [] ->
  sigma (res (slope ps) (ybar ps - xbar ps * slope ps)) ps <= sigma (res a' b') ps.
Proof.
  intros Hne. rewrite (sse_decomposition ps a' b' Hne). cbv zeta.
  match goal with
  | |- _ <= _ + sigma ?f ps => assert (H : 0 <= sigma f ps)
  end.
  { apply sigma_nonneg. intros p. apply Qsq_nonneg. }
  lra.
Qed.

Lemma least_squares_unique ps a' b' p1 p2 :
  In p1 ps -> In p2 ps -> ~ xq p1 == xq p2 ->
  sigma (res a' b') ps == sigma (res (slope ps) (ybar ps - xbar ps * slope ps)) ps ->
  a' == slope ps /\ b' == ybar ps - xbar ps * slope ps.
Proof.
  intros H1 H2 Hx Heq.
  assert (Hne : ps <> []) by (intros ->; destruct H1).
  rewrite (sse_decomposition ps a' b' Hne) in Heq. cbv zeta in Heq.
  remember (slope ps - a') as al eqn:Eal.
  remember (ybar ps - xbar ps * slope ps - b' + al * xbar ps) as be eqn:Ebe.
  assert (Hz : forall p, In p ps -> al * (xq p - xbar ps) + be == 0).
  { intros p Hp.
    pose proof (sigma_zero (fun p => (al * (xq p - xbar ps) + be)
                                 * (al * (xq p - xbar ps) + be)) ps) as H.
    assert (H0 : (al * (xq p - xbar ps) + be) * (al * (xq p - xbar ps) + be) == 0).
    { apply H; [intros q; apply Qsq_nonneg | lra | exact Hp]. }
    apply Qmult_integral in H0. tauto. }
  pose proof (Hz p1 H1) as E1. pose proof (Hz p2 H2) as E2.
  assert (Hal : al * (xq p1 - xq p2) == 0) by lra.
  apply Qmult_integral in Hal. destruct Hal as [Hal | Hal]; [|exfalso; apply Hx; lra].
  assert (Hbe : be == 0) by (rewrite Hal in E1; lra).
  assert (Hb : ybar ps - xbar ps * slope ps - b' == 0).
  { rewrite Ebe, Hal in Hbe. lra. }
  rewrite Eal in Hal. split; lra.
Qed.

Lemma combine_fst_snd (ps : list (Z * Q)) :
  combine (map fst ps) (map snd ps) = ps.
Proof.
  induction ps as [|[x v] ps IH]; simpl; [reflexivity|]. now rewrite IH.
Qed.

Lemma combine_centred (F G : Q -> Q) (ps : list (Z * Q)) :
  combine (map F (map inject_Z (map fst ps))) (map G (map snd ps)) =
  map (fun p => (F (xq p), G (snd p))) ps.
Proof.
  induction ps as [|[x v] ps IH]; simpl; [reflexivity|]. now rewrite IH.
Qed.

Lemma fit_of_pairs (ps : list (Z * Q)) :
  ps <> [] ->
  LinearRegression.fit (map fst ps) (map snd ps) =
  Ok (LinearRegression.mkmodel (slope ps) (ybar ps - xbar ps * slope ps)).
Proof.
  intros Hne.
  assert (Hfit : LinearRegression.fit (map fst ps) (map snd ps) =
                 Ok (LinearRegression.centred_lstsq (map fst ps) (map snd ps)))
    by (destruct ps; [congruence | reflexivity]).
  rewrite Hfit. unfold LinearRegression.centred_lstsq.
  assert (Hx : Frame.mean (map inject_Z (map fst ps)) = xbar ps).
  { unfold Frame.mean, xbar, sigma, size. now rewrite !map_map, !length_map. }
  assert (Hy : Frame.mean (map snd ps) = ybar ps).
  { unfold Frame.mean, ybar, sigma, size. now rewrite !length_map. }
  rewrite Hx, Hy.
  assert (Hxx : Frame.sum (map (fun x => x * x)
                  (map (fun x => x - xbar ps) (map inject_Z (map fst ps)))) = sxx ps).
  { unfold sxx, sigma. now rewrite !map_map. }
  assert (Hxy : Frame.sum (map (fun p => fst p * snd p)
                  (combine (map (fun x => x - xbar ps) (map inject_Z (map fst ps)))
                           (map (fun v => v - ybar ps) (map snd ps)))) = sxy ps).
  { unfold sxy, sigma. now rewrite combine_centred, map_map. }
  rewrite Hxx, Hxy. reflexivity.
Qed.

Lemma sse_of_pairs (a b : Q) (ps : list (Z * Q)) :
  LinearRegression.sse a b (map fst ps) (map snd ps) = sigma (res a b) ps.
Proof. unfold LinearRegression.sse. rewrite combine_fst_snd. reflexivity. Qed.

End LeastSquares.

(** ** The six future months *)

Lemma add_months_0 (d : date) : month_start d -> Calendar.add_months d 0 = d.
Proof.
  intros [Hd Hm]. destruct d as [y m dd]. simpl in *. subst dd.
  unfold Calendar.add_months; simpl.
  assert (E1 : (m - 1 + 0) / 12 = 0) by (Z.to_euclidean_division_equations; lia).
  assert (E2 : (m - 1 + 0) mod 12 + 1 = m)
    by (Z.to_euclidean_division_equations; lia).
  rewrite E1, E2, Z.add_0_r.
  pose proof (days_in_month_ge_28 y m Hm). f_equal. lia.
Qed.

Lemma months_after_offsets (n : nat) (d : date) (i : Z) :
  month_start d ->
  months_after n (Calendar.add_months d i) =
  map (fun k => Calendar.add_months d (i + Z.of_nat k)) (seq 1 n).
Proof.
  intros Hd. revert i. induction n as [|n IH]; intros i; [reflexivity|].
  cbn [months_after seq map]. unfold next_month.
  rewrite (add_months_step d i Hd), IH.
  change (Z.of_nat 1) with 1. f_equal.
  rewrite <- (seq_shift n 1), map_map. apply map_ext. intros k.
  f_equal. lia.
Qed.

(** [[last_date + DateOffset(months=i) for i in range(1, 7)]] is six steps
    of one calendar month from [last_date]. *)
Lemma future_dates_months_after (d : date) :
  month_start d ->
  map (Calendar.add_months d) horizon = months_after 6 d.
Proof.
  intros Hd. rewrite <- (add_months_0 d Hd) at 2.
  rewrite (months_after_offsets 6 d 0 Hd). unfold horizon.
  rewrite map_map. reflexivity.
Qed.

Lemma months_after_sorted (n : nat) (d : date) :
  month_start d ->
  StronglySorted (fun a b => Calendar.compare a b = Lt) (d :: months_after n d).
Proof.
  revert d. induction n as [|n IH]; intros d Hd.
  - repeat constructor.
  - cbn [months_after].
    assert (Hn : month_start (next_month d)) by (apply add_months_month_start, Hd).
    assert (Hlt : Calendar.compare d (next_month d) = Lt)
      by (apply add_months_later; [exact Hd | lia]).
    pose proof (IH (next_month d) Hn) as Hs.
    constructor; [exact Hs|].
    constructor; [exact Hlt|].
    inversion Hs as [|? ? _ Hall]; subst.
    eapply Forall_impl; [|exact Hall]. intros e He.
    eapply date_compare_lt_trans; eassumption.
Qed.

(** ** The regression sample *)

Lemma sample_fst (df : list CleanRecord) :
  map fst (sample df) = map s_Ordinal (monthly_cases df).
Proof. unfold sample. rewrite map_map. reflexivity. Qed.

Lemma sample_snd (df : list CleanRecord) :
  map snd (sample df) = map s_cases (monthly_cases df).
Proof. unfold sample. rewrite map_map. reflexivity. Qed.

Lemma sample_of_date (df : list CleanRecord) (r : CleanRecord) :
  In r df -> exists q, In (Calendar.toordinal (Date r), q) (sample df).
Proof.
  intros Hr.
  assert (Hd : In (Date r) (map fst (trend df)))
    by (apply trend_date_row; eauto).
  apply in_map_iff in Hd as [[d q] [Hdq Hin]]. simpl in Hdq; subst d.
  exists q. unfold sample. rewrite monthly_cases_trend, map_map.
  apply in_map_iff. exists (Date r, q). auto.
Qed.

Lemma toordinal_injective (a b : date) :
  month_start a -> month_start b -> a <> b ->
  Calendar.toordinal a <> Calendar.toordinal b.
Proof.
  intros Ha Hb Hne.
  destruct (Calendar.compare a b) eqn:E.
  - apply date_compare_eq in E. contradiction.
  - pose proof (toordinal_lt a b Ha Hb E). lia.
  - rewrite date_compare_antisym in E.
    assert (E' : Calendar.compare b a = Lt)
      by (destruct (Calendar.compare b a); simpl in E; congruence).
    pose proof (toordinal_lt b a Hb Ha E'). lia.
Qed.

(** ** C2: the forecast *)




(** * More of the script *)

(** ** [unique] and [sorted] *)

Section UniqueFacts.

Variable A : Type.
Variable eqb : A -> A -> bool.
Hypothesis eqb_eq : forall a b, eqb a b = true <-> a = b.

Lemma unique_In (x : A) (l : list A) : In x (unique eqb l) <-> In x l.
Proof using eqb_eq.
  induction l as [|a l IH]; simpl; [tauto|].
  rewrite filter_In, IH. split.
  - intros [H | [H _]]; auto.
  - intros [H | H]; auto.
    destruct (eqb a x) eqn:E.
    + left. now apply eqb_eq.
    + right. auto.
Qed.

Lemma unique_NoDup (l : list A) : NoDup (unique eqb l).
Proof using eqb_eq.
  induction l as [|a l IH]; simpl; constructor.
  - rewrite filter_In. intros [_ H].
    rewrite (proj2 (eqb_eq a a) eq_refl) in H. discriminate.
  - apply NoDup_filter, IH.
Qed.

End UniqueFacts.

Lemma date_eqb_eq (a b : date) : date_eqb a b = true <-> a = b.
Proof.
  destruct a as [ya ma da], b as [yb mb db]. unfold date_eqb; simpl.
  rewrite !andb_true_iff, !Z.eqb_eq. split.
  - intros [[-> ->] ->]. reflexivity.
  - intros E; injection E as -> -> ->. auto.
Qed.

Lemma date_compare_eqb (a b : date) :
  match Calendar.compare a b with Eq => true | _ => false end = date_eqb a b.
Proof.
  destruct (Calendar.compare a b) eqn:E.
  - apply date_compare_eq in E. subst. symmetry. now apply date_eqb_eq.
  - destruct (date_eqb a b) eqn:E'; [|reflexivity].
    apply date_eqb_eq, date_compare_eq in E'. congruence.
  - destruct (date_eqb a b) eqn:E'; [|reflexivity].
    apply date_eqb_eq, date_compare_eq in E'. congruence.
Qed.

Lemma isin_In (x : str) (values : list str) :
  isin x values = true <-> In x values.
Proof.
  unfold isin. rewrite existsb_exists. split.
  - intros [y [Hy E]]. apply str_eqb_eq in E. now subst.
  - intros H. exists x. split; [exact H | apply str_eqb_refl].
Qed.

Lemma str_leb_total (a b : str) : str_leb a b = false -> str_leb b a = true.
Proof.
  unfold str_leb. rewrite (str_compare_antisym b a).
  destruct (Str.compare a b); simpl; congruence.
Qed.

Lemma sorted_In (x : str) (l : list str) : In x (sorted l) <-> In x l.
Proof.
  unfold sorted. split; apply Permutation_in.
  - apply sort_values_perm.
  - apply Permutation_sym, sort_values_perm.
Qed.

Lemma str_leb_trans (a b c : str) :
  str_leb a b = true -> str_leb b c = true -> str_leb a c = true.
Proof.
  unfold str_leb. intros Hab Hbc.
  destruct (Str.compare a b) eqn:E1; try discriminate;
    destruct (Str.compare b c) eqn:E2; try discriminate.
  - apply str_compare_eq in E1, E2. subst.
    now rewrite (proj2 (str_compare_eq c c) eq_refl).
  - apply str_compare_eq in E1. subst. now rewrite E2.
  - apply str_compare_eq in E2. subst. now rewrite E1.
  - now rewrite (str_compare_lt_trans a b c E1 E2).
Qed.

(** A sorted list of distinct strings is strictly ascending. *)
Lemma sorted_strict (l : list str) :
  NoDup l -> StronglySorted (fun a b => Str.compare a b = Lt) (sorted l).
Proof.
  intros Hnd.
  assert (Hs : StronglySorted (fun a b => str_leb a b = true) (sorted l)).
  { apply Sorted_StronglySorted.
    - intros a b c. apply str_leb_trans.
    - apply (sort_values_ordered (fun s : str => s) str_leb str_leb_total). }
  assert (Hnd' : NoDup (sorted l)).
  { eapply Permutation_NoDup; [|exact Hnd].
    apply Permutation_sym, sort_values_perm. }
  induction Hs as [|a t Ht IH Hall]; constructor.
  - apply IH. now inversion Hnd'.
  - inversion Hnd' as [|? ? Hnotin _]; subst.
    rewrite Forall_forall in *. intros b Hb. specialize (Hall b Hb).
    unfold str_leb in Hall. destruct (Str.compare a b) eqn:E; try discriminate.
    + apply str_compare_eq in E. subst. contradiction.
    + reflexivity.
Qed.

(** ** The filter *)

Lemma filter_idempotent (A : Type) (p : A -> bool) (l : list A) :
  filter p (filter p l) = filter p l.
Proof.
  induction l as [|x l IH]; simpl; [reflexivity|].
  destruct (p x) eqn:E; simpl; [rewrite E, IH|]; auto.
Qed.

Lemma filter_commute (A : Type) (p q : A -> bool) (l : list A) :
  filter p (filter q l) = filter q (filter p l).
Proof.
  induction l as [|x l IH]; simpl; [reflexivity|].
  destruct (q x) eqn:Eq, (p x) eqn:Ep; simpl; rewrite ?Eq, ?Ep, IH; reflexivity.
Qed.

Lemma filter_all (A : Type) (p : A -> bool) (l : list A) :
  (forall x, In x l -> p x = true) -> filter p l = l.
Proof.
  induction l as [|x l IH]; simpl; intros H; [reflexivity|].
  rewrite (H x) by auto. f_equal. apply IH. auto.
Qed.

(** X1.  The filter keeps exactly the rows whose Year and whose Governorate
    are both among the selected values, in the order of the table, and
    never adds a row; applying the same selection again changes nothing. *)
Theorem df_filtered_keeps_the_selected_rows_in_order
    (df df' : list CleanRecord) (selected_years selected_govs : list str) :
  (forall r, In r (df_filtered df selected_years selected_govs) <->
             In r df /\ In (Year r) selected_years
             /\ In (Governorate r) selected_govs)
  /\ df_filtered (df ++ df') selected_years selected_govs =
     df_filtered df selected_years selected_govs
     ++ df_filtered df' selected_years selected_govs
  /\ (List.length (df_filtered df selected_years selected_govs)
      <= List.length df)%nat
  /\ df_filtered (df_filtered df selected_years selected_govs)
       selected_years selected_govs
     = df_filtered df selected_years selected_govs.
Proof.
  unfold df_filtered. repeat split.
  - apply filter_In in H. tauto.
  - apply filter_In in H as [_ H]. apply andb_true_iff in H as [H _].
    now apply isin_In.
  - apply filter_In in H as [_ H]. apply andb_true_iff in H as [_ H].
    now apply isin_In.
  - intros [Hr [Hy Hg]]. apply filter_In. split; [exact Hr|].
    apply andb_true_iff. split; now apply isin_In.
  - apply filter_app.
  - apply filter_length_le.
  - apply filter_idempotent.
Qed.

(** X2.  Two selections applied one after the other give the same rows in
    either order, and a selection counts only through the values it holds:
    repeating or reordering the selected values changes nothing. *)
Theorem df_filtered_depends_on_the_selected_values_only
    (df : list CleanRecord) (ys1 gs1 ys2 gs2 : list str) :
  df_filtered (df_filtered df ys1 gs1) ys2 gs2 =
  df_filtered (df_filtered df ys2 gs2) ys1 gs1
  /\ ((forall y, In y ys1 <-> In y ys2) -> (forall g, In g gs1 <-> In g gs2) ->
      df_filtered df ys1 gs1 = df_filtered df ys2 gs2).
Proof.
  unfold df_filtered. split; [apply filter_commute|].
  intros Hy Hg. apply filter_ext. intros r. f_equal.
  - apply eq_true_iff_eq. rewrite !isin_In. apply Hy.
  - apply eq_true_iff_eq. rewrite !isin_In. apply Hg.
Qed.

(** X2, witness: the same two years picked in another order, one twice. *)
Lemma df_filtered_depends_on_the_selected_values_only_witness :
  let df := [mkClean (mkdate 2020 1 1) (Str.lit "2020") (Str.lit "01")
                     (Str.lit "Beirut") 10%Q;
             mkClean (mkdate 2021 1 1) (Str.lit "2021") (Str.lit "01")
                     (Str.lit "Bekaa") 5%Q] in
  df_filtered df [Str.lit "2020"; Str.lit "2021"] [Str.lit "Beirut"] =
  df_filtered df [Str.lit "2021"; Str.lit "2020"; Str.lit "2021"] [Str.lit "Beirut"].
Proof.
  intros df.
  apply (proj2 (df_filtered_depends_on_the_selected_values_only df
                  [Str.lit "2020"; Str.lit "2021"] [Str.lit "Beirut"]
                  [Str.lit "2021"; Str.lit "2020"; Str.lit "2021"]
                  [Str.lit "Beirut"])).
  - intros y. simpl. tauto.
  - intros g. tauto.
Defined.

(** ** The sidebar *)

(** X3.  The options of the two multiselects are the Years and the
    Governorates that occur in the table, each once, in strictly ascending
    order; with the default selection, all options of both, the filter
    returns the whole table. *)
Theorem default_selection_is_the_whole_table (df : list CleanRecord) :
  (forall y, In y (years df) <-> exists r, In r df /\ Year r = y)
  /\ (forall g, In g (governorates df) <-> exists r, In r df /\ Governorate r = g)
  /\ StronglySorted (fun a b => Str.compare a b = Lt) (years df)
  /\ StronglySorted (fun a b => Str.compare a b = Lt) (governorates df)
  /\ df_filtered df (years df) (governorates df) = df.
Proof.
  assert (Hy : forall y, In y (years df) <-> exists r, In r df /\ Year r = y).
  { intros y. unfold years.
    rewrite sorted_In, (unique_In _ Str.eqb str_eqb_eq), in_map_iff.
    split; intros [r [H1 H2]]; exists r; tauto. }
  assert (Hg : forall g, In g (governorates df) <->
                         exists r, In r df /\ Governorate r = g).
  { intros g. unfold governorates.
    rewrite sorted_In, (unique_In _ Str.eqb str_eqb_eq), in_map_iff.
    split; intros [r [H1 H2]]; exists r; tauto. }
  split; [exact Hy|]. split; [exact Hg|].
  split; [apply sorted_strict, (unique_NoDup _ Str.eqb str_eqb_eq)|].
  split; [apply sorted_strict, (unique_NoDup _ Str.eqb str_eqb_eq)|].
  unfold df_filtered. apply filter_all. intros r Hr.
  apply andb_true_iff. split; apply isin_In.
  - apply Hy. eauto.
  - apply Hg. eauto.
Qed.

(** ** The two counting KPIs *)

Lemma gov_series_keys (df : list CleanRecord) (g : str) :
  In g (map fst (Frame.agg Frame.sum
                   (Frame.groupby Str.compare Governorate cases df)))
  <-> exists r, In r df /\ Governorate r = g.
Proof.
  rewrite agg_keys. split.
  - apply groupby_key_row.
    + apply str_compare_eq.
    + apply str_compare_antisym.
    + apply str_compare_lt_trans.
  - intros [r [Hr <-]]. apply groupby_row_key; [| | |exact Hr].
    + apply str_compare_eq.
    + apply str_compare_antisym.
    + apply str_compare_lt_trans.
Qed.

(** X4.  "Months Covered" is the number of points of the Monthly Trend
    chart and "Governorates" is the number of bars of the by-region chart,
    which is also the number of Governorate options the table offers. *)
Theorem counting_kpis_match_the_charts (df : list CleanRecord) :
  months_covered df = List.length (trend df)
  /\ governorates_covered df = List.length (gov_data df)
  /\ governorates_covered df = List.length (governorates df)
  /\ (months_covered df <= List.length df)%nat.
Proof.
  assert (Hm : months_covered df = List.length (trend df)).
  { unfold months_covered. rewrite <- (length_map fst (trend df)).
    apply Permutation_length, NoDup_Permutation.
    - apply (unique_NoDup _ date_eqb date_eqb_eq).
    - eapply ascending_NoDup; [apply date_compare_eq | apply trend_ascending].
    - intros d. rewrite (unique_In _ date_eqb date_eqb_eq), in_map_iff, trend_date_row.
      split; intros [r [H1 H2]]; exists r; tauto. }
  split; [exact Hm|]. split; [|split].
  - unfold governorates_covered, gov_data.
    rewrite (Permutation_length (sort_values_perm _ _ _)).
    rewrite <- (length_map fst).
    apply Permutation_length, NoDup_Permutation.
    + apply (unique_NoDup _ Str.eqb str_eqb_eq).
    + eapply ascending_NoDup; [apply str_compare_eq|].
      apply agg_ascending, groupby_ascending.
      * apply str_compare_eq.
      * apply str_compare_antisym.
      * apply str_compare_lt_trans.
    + intros g. rewrite (unique_In _ Str.eqb str_eqb_eq), in_map_iff, gov_series_keys.
      split; intros [r [H1 H2]]; exists r; tauto.
  - unfold governorates_covered, governorates, sorted.
    symmetry. apply Permutation_length, sort_values_perm.
  - rewrite Hm. unfold trend, Frame.agg. rewrite length_map.
    rewrite <- (length_map fst), <- (length_map Date df).
    apply NoDup_incl_length.
    + eapply ascending_NoDup; [apply date_compare_eq|].
      apply groupby_ascending.
      * apply date_compare_eq.
      * apply date_compare_antisym.
      * apply date_compare_lt_trans.
    + intros d Hd. apply in_map_iff.
      apply groupby_key_row in Hd as [r [Hr Hk]].
      * exists r. auto.
      * apply date_compare_eq.
      * apply date_compare_antisym.
      * apply date_compare_lt_trans.
Qed.

(** ** The Total Cases KPI *)

Lemma int_of_whole (q : Q) (n : Z) : (q == inject_Z n)%Q -> int q = n.
Proof.
  unfold Qeq, int. simpl. intros H. rewrite Z.mul_1_r in H. rewrite H.
  apply Z.quot_mul. discriminate.
Qed.

Lemma sum_of_whole (vs : list Q) (ns : list Z) :
  Forall2 (fun v n => (v == inject_Z n)%Q) vs ns ->
  (Frame.sum vs == inject_Z (fold_right Z.add 0%Z ns))%Q.
Proof.
  induction 1 as [|v n vs ns Hv _ IH]; simpl.
  - reflexivity.
  - rewrite sum_cons, IH, Hv, inject_Z_plus. reflexivity.
Qed.

Lemma sum_nonneg (vs : list Q) :
  Forall (fun v => (0 <= v)%Q) vs -> (0 <= Frame.sum vs)%Q.
Proof.
  induction 1 as [|v vs Hv _ IH]; [apply Qle_refl|].
  rewrite sum_cons. lra.
Qed.

Lemma sum_filter_le (df : list CleanRecord) (p : CleanRecord -> bool) :
  Forall (fun r => (0 <= cases r)%Q) df ->
  (Frame.sum (map cases (filter p df)) <= Frame.sum (map cases df))%Q.
Proof.
  induction 1 as [|r df Hr _ IH]; simpl; [apply Qle_refl|].
  destruct (p r); simpl; rewrite !sum_cons; lra.
Qed.

Lemma int_monotone (x y : Q) : (0 <= x)%Q -> (x <= y)%Q -> 0 <= int x <= int y.
Proof.
  intros Hx Hxy.
  assert (Hy : (0 <= y)%Q) by lra.
  assert (Hi : forall q, (0 <= q)%Q -> int q = Qfloor q).
  { intros [n d] Hq. unfold int, Qfloor. simpl.
    apply Z.quot_div_nonneg; [|reflexivity].
    unfold Qle in Hq. simpl in Hq. lia. }
  rewrite (Hi x Hx), (Hi y Hy). split.
  - change 0 with (Qfloor 0). now apply Qfloor_resp_le.
  - now apply Qfloor_resp_le.
Qed.





(** ** The by-date view *)

(** X7.  The by-date view has one entry per Date of the frame, in strictly
    ascending date order, and the value of an entry is the sum of [Number
    of cases] over all rows of that Date, whatever their Governorate. *)
Theorem trend_sums_each_date_in_date_order (df : list CleanRecord) :
  (forall d, In d (map fst (trend df)) <-> exists r, In r df /\ Date r = d)
  /\ StronglySorted (fun a b => Calendar.compare a b = Lt) (map fst (trend df))
  /\ (forall d s, In (d, s) (trend df) ->
        s = Frame.sum (map cases (filter (fun r => date_eqb (Date r) d) df))).
Proof.
  split; [apply trend_date_row|]. split.
  - pose proof (trend_ascending df) as H. unfold ascending in H.
    induction H as [|p l Hs IH Hall]; simpl; [constructor|].
    constructor; [exact IH|]. apply Forall_map. exact Hall.
  - intros d s Hin.
    apply (in_lookup date_compare_eq date_compare_antisym _ _ (trend_ascending df))
      in Hin.
    unfold trend in Hin. rewrite lookup_agg in Hin.
    rewrite (lookup_groupby Calendar.compare Date cases date_compare_eq
               date_compare_antisym date_compare_lt_trans) in Hin.
    unfold rows_of in Hin.
    rewrite (filter_ext _ (fun r => date_eqb (Date r) d)) in Hin
      by (intros r; apply date_compare_eqb).
    destruct (filter (fun r => date_eqb (Date r) d) df); [discriminate|].
    now injection Hin as <-.
Qed.

(** X7, witness: two regions in the same month are added up. *)
Lemma trend_sums_each_date_in_date_order_witness :
  let df := [mkClean (mkdate 2020 2 1) (Str.lit "2020") (Str.lit "02")
                     (Str.lit "Beirut") 10%Q;
             mkClean (mkdate 2020 1 1) (Str.lit "2020") (Str.lit "01")
                     (Str.lit "Bekaa") 5%Q;
             mkClean (mkdate 2020 2 1) (Str.lit "2020") (Str.lit "02")
                     (Str.lit "Bekaa") 20%Q] in
  In (mkdate 2020 2 1) (map fst (trend df))
  /\ forall s, In (mkdate 2020 2 1, s) (trend df) -> s = Frame.sum [10%Q; 20%Q].
Proof.
  intros df. split.
  - apply (proj1 (trend_sums_each_date_in_date_order df)).
    exists (mkClean (mkdate 2020 2 1) (Str.lit "2020") (Str.lit "02")
                    (Str.lit "Beirut") 10%Q).
    split; [left; reflexivity | reflexivity].
  - intros s Hs.
    exact (proj2 (proj2 (trend_sums_each_date_in_date_order df)) _ _ Hs).
Defined.

(** ** More on the loader *)

(** Every row of the clean table comes from one raw record. *)
Lemma load_data_origin (in_bounds : date -> bool) (csv : list RawRecord)
    (c : CleanRecord) :
  In c (load_data in_bounds csv) ->
  exists r, In r csv /\ Number_of_cases r = Some (cases c)
            /\ dropna_row (derive in_bounds r) = Some c.
Proof.
  induction csv as [|r csv IH]; [intros []|].
  rewrite load_data_cons, in_app_iff, load_data_single. intros [H | H].
  - destruct (Number_of_cases r) as [q|] eqn:Hq; [|destruct H].
    destruct (dropna_row (derive in_bounds r)) as [c'|] eqn:Hrow; [|destruct H].
    destruct H as [<- | []]. exists r. split; [left; reflexivity|].
    split; [|exact Hrow].
    apply dropna_row_some in Hrow as [_ [_ [_ [_ Hc]]]].
    unfold derive in Hc; cbn [d_cases] in Hc. congruence.
  - destruct (IH H) as [r' [Hr' Hrest]]. exists r'. split; [right; exact Hr'|].
    exact Hrest.
Qed.

Lemma load_data_length (in_bounds : date -> bool) (csv : list RawRecord) :
  (List.length (load_data in_bounds csv) <= List.length csv)%nat.
Proof.
  induction csv as [|r csv IH]; [apply Nat.le_refl|].
  rewrite load_data_cons, length_app, load_data_single.
  destruct (Number_of_cases r); [|simpl; lia].
  destruct (dropna_row (derive in_bounds r)); simpl; lia.
Qed.

Lemma replace_underscores (seg : str) :
  forallb (fun ch => negb (Ascii.eqb ch "/"%char) && negb (Ascii.eqb ch "_"%char))
    (Str.replace "_" " " seg)
  = Spec.slash_free seg.
Proof.
  unfold Str.replace, Spec.slash_free.
  induction seg as [|ch seg IH]; simpl; [reflexivity|].
  rewrite IH. f_equal.
  destruct (Ascii.eqb ch "_"%char) eqn:E.
  - apply Ascii.eqb_eq in E. subst ch. reflexivity.
  - rewrite E, andb_true_r. reflexivity.
Qed.

(** X8.  Every row of the clean table has a Year of four digits and a
    Month of two digits that spell the year and the month (01..12) of its
    Date, a Date inside the [Timestamp] range, and a Governorate that is
    not empty and holds no slash and no underscore. *)
Theorem clean_rows_are_well_formed
    (in_bounds : date -> bool) (csv : list RawRecord) (c : CleanRecord) :
  In c (load_data in_bounds csv) ->
  Spec.digit_run 4 (Year c) = true
  /\ Spec.digit_run 2 (Month c) = true
  /\ Str.int_of_digits (Year c) = Some (year (Date c))
  /\ Str.int_of_digits (Month c) = Some (month (Date c))
  /\ 1 <= month (Date c) <= 12
  /\ in_bounds (Date c) = true
  /\ Governorate c <> []
  /\ forallb (fun ch => negb (Ascii.eqb ch "/"%char) && negb (Ascii.eqb ch "_"%char))
       (Governorate c) = true.
Proof.
  intros Hc. apply load_data_origin in Hc as [r [_ [_ Hrow]]].
  pose proof (@derive_month_start in_bounds r c Hrow) as [_ [Hm [HM HY]]].
  apply dropna_row_some in Hrow as [Hd [Hy [Hmo [Hg _]]]].
  unfold derive in Hy, Hmo, Hg; cbn [d_Year d_Month d_Governorate] in Hy, Hmo, Hg.
  rewrite extract_year in Hy. rewrite extract_month in Hmo.
  pose proof (@on_cell_first_digits_run _ _ Hy) as Hy4.
  pose proof (@on_cell_month_run _ _ Hmo) as Hm2.
  repeat split; try assumption; try lia.
  - rewrite (@derive_date in_bounds r (Year c) (Month c) _ _ Hy Hmo HY HM) in Hd.
    destruct ((1 <=? month (Date c)) && (month (Date c) <=? 12)
              && in_bounds (mkdate (year (Date c)) (month (Date c)) 1)) eqn:E;
      [|discriminate].
    injection Hd as Hd. apply andb_true_iff in E as [_ E]. now rewrite Hd in E.
  - destruct (refArea r) as [a|]; [|discriminate]. cbn [Re.extract] in Hg.
    destruct (Re.search Re.area_pattern a) as [seg|] eqn:Hs; [|discriminate].
    apply search_area_inv in Hs as [pre [_ [Hne _]]].
    injection Hg as <-. unfold Str.replace. intros E.
    apply map_eq_nil in E. contradiction.
  - destruct (refArea r) as [a|]; [|discriminate]. cbn [Re.extract] in Hg.
    destruct (Re.search Re.area_pattern a) as [seg|] eqn:Hs; [|discriminate].
    apply search_area_inv in Hs as [pre [_ [_ Hsf]]].
    injection Hg as <-. now rewrite replace_underscores.
Qed.

(** X8, witness: the Mount_Lebanon record of March 2021. *)
Lemma clean_rows_are_well_formed_witness :
  let c := mkClean (mkdate 2021 3 1) (Str.lit "2021") (Str.lit "03")
                   (Str.lit "Mount Lebanon") 7%Q in
  Str.int_of_digits (Year c) = Some (year (Date c))
  /\ Governorate c <> [].
Proof.
  intros c.
  destruct (clean_rows_are_well_formed Calendar.ns_bounds
              [mkRaw (Some (Str.lit "http://data.gov.lb/resource/Mount_Lebanon"))
                     (Some (Str.lit "03-2021")) (Some 7%Q)] c)
    as [_ [_ [HY [_ [_ [_ [Hg _]]]]]]].
  - left. reflexivity.
  - split; assumption.
Defined.

(** X9.  Loading is record by record: the clean table of two files put
    one after the other is the two clean tables put one after the other,
    the clean table never has more rows than the file, and the case count
    of every clean row is the (non-null) case count of a record of the
    file: no count is imputed or altered. *)
Theorem load_data_is_record_by_record
    (in_bounds : date -> bool) (csv csv' : list RawRecord) :
  load_data in_bounds (csv ++ csv') =
  load_data in_bounds csv ++ load_data in_bounds csv'
  /\ (List.length (load_data in_bounds csv) <= List.length csv)%nat
  /\ (forall c, In c (load_data in_bounds csv) ->
        exists r, In r csv /\ Number_of_cases r = Some (cases c)).
Proof.
  split; [apply load_data_app|]. split; [apply load_data_length|].
  intros c Hc. apply load_data_origin in Hc as [r [Hr [Hq _]]]. eauto.
Qed.

(** ** The two period patterns on a well-formed period *)

Lemma first_digits_skip (n : nat) (c : ascii) (s : str) :
  Str.is_digit c = false ->
  Spec.first_digits (S n) (c :: s) = Spec.first_digits (S n) s.
Proof.
  intros Hc. cbn [Spec.first_digits firstn]. unfold Spec.digit_run.
  cbn [forallb]. rewrite Hc. cbn [andb]. rewrite andb_false_r. reflexivity.
Qed.

Lemma month_before_year_skip (c : ascii) (s : str) :
  Str.is_digit c = false ->
  Spec.month_before_year (c :: s) = Spec.month_before_year s.
Proof.
  intros Hc. cbn [Spec.month_before_year]. unfold Spec.month_year_here at 1.
  unfold Spec.digit_run at 1. cbn [firstn forallb]. rewrite Hc. cbn [andb].
  rewrite andb_false_r. reflexivity.
Qed.

(** X10.  When [refPeriod] is MM-YYYY, after any text that holds no digit
    and before any text at all, the two patterns agree: the Year column is
    the YYYY that follows the dash and the Month column is the MM before
    it. *)
Theorem period_patterns_agree_after_plain_text
    (pre post : str) (m1 m2 y1 y2 y3 y4 : ascii) :
  forallb (fun c => negb (Str.is_digit c)) pre = true ->
  forallb Str.is_digit [m1; m2; y1; y2; y3; y4] = true ->
  let refPeriod := Some (pre ++ [m1; m2; "-"%char; y1; y2; y3; y4] ++ post) in
  Re.extract Re.year_pattern refPeriod = Some [y1; y2; y3; y4]
  /\ Re.extract Re.month_pattern refPeriod = Some [m1; m2].
Proof.
  intros Hpre Hd refPeriod. unfold refPeriod. cbn [Re.extract].
  rewrite search_year, search_month.
  cbn [forallb] in Hd. rewrite !andb_true_iff in Hd.
  destruct Hd as [Hm1 [Hm2 [Hy1 [Hy2 [Hy3 [Hy4 _]]]]]].
  assert (Hdash : Str.is_digit "-"%char = false) by reflexivity.
  induction pre as [|c pre IH].
  - cbn [app]. split.
    + cbn [Spec.first_digits firstn]. unfold Spec.digit_run.
      cbn [forallb List.length Nat.eqb].
      rewrite Hm1, Hm2, Hy1, Hy2, Hy3, Hy4, Hdash. reflexivity.
    + cbn [Spec.month_before_year]. unfold Spec.month_year_here, Spec.digit_run.
      cbn [firstn skipn nth_error forallb List.length Nat.eqb].
      rewrite Hm1, Hm2, Hy1, Hy2, Hy3, Hy4. reflexivity.
  - cbn [forallb] in Hpre. apply andb_true_iff in Hpre as [Hc Hpre].
    apply negb_true_iff in Hc. cbn [app].
    rewrite (first_digits_skip 3 c _ Hc), (month_before_year_skip c _ Hc).
    apply IH, Hpre.
Qed.

(** X10, witness: the period "Month: 07-2019 (final)". *)
Lemma period_patterns_agree_after_plain_text_witness :
  Re.extract Re.year_pattern (Some (Str.lit "Month: 07-2019 (final)"))
  = Some (Str.lit "2019")
  /\ Re.extract Re.month_pattern (Some (Str.lit "Month: 07-2019 (final)"))
     = Some (Str.lit "07").
Proof.
  apply (period_patterns_agree_after_plain_text
           (Str.lit "Month: ") (Str.lit " (final)")
           "0"%char "7"%char "2"%char "0"%char "1"%char "9"%char);
    reflexivity.
Defined.

(** ** The spacing of the forecast dates *)

Lemma days_before_year_succ (y : Z) :
  Calendar.days_before_year (y + 1) =
  Calendar.days_before_year y + 365 + (if Calendar.is_leap y then 1 else 0).
Proof.
  unfold Calendar.days_before_year, Calendar.is_leap.
  destruct (y mod 4 =? 0) eqn:E4; destruct (y mod 100 =? 0) eqn:E100;
    destruct (y mod 400 =? 0) eqn:E400; simpl;
    rewrite ?Z.eqb_eq, ?Z.eqb_neq in *;
    Z.to_euclidean_division_equations; lia.
Qed.

Lemma next_month_fields (y m : Z) :
  1 <= m <= 12 ->
  next_month (mkdate y m 1) =
  mkdate (if m =? 12 then y + 1 else y) (if m =? 12 then 1 else m + 1) 1.
Proof.
  intros Hm.
  pose proof (add_months_month_start (mkdate y m 1) 1 (conj eq_refl Hm)) as [Hd _].
  unfold next_month in *. unfold Calendar.add_months in *. simpl in *.
  rewrite Hd. destruct (m =? 12) eqn:E.
  - apply Z.eqb_eq in E. subst m. reflexivity.
  - apply Z.eqb_neq in E. f_equal; Z.to_euclidean_division_equations; lia.
Qed.

(** One calendar month later is as many days later as the month has. *)
Lemma toordinal_next_month (d : date) :
  month_start d ->
  Calendar.toordinal (next_month d) - Calendar.toordinal d =
  Calendar.days_in_month (year d) (month d).
Proof.
  intros [Hd Hm]. destruct d as [y m dd]. simpl in Hd, Hm. subst dd.
  rewrite (next_month_fields y m Hm). unfold Calendar.toordinal. simpl.
  apply month_cases in Hm.
  repeat (destruct Hm as [Hm | Hm]); subst m; simpl;
    rewrite ?days_before_year_succ;
    unfold Calendar.days_before_month, Calendar.days_in_month; simpl;
    destruct (Calendar.is_leap y); simpl; lia.
Qed.

Lemma days_in_month_le_31 (y m : Z) : Calendar.days_in_month y m <= 31.
Proof.
  unfold Calendar.days_in_month.
  destruct (Calendar.is_leap y);
    destruct m as [|p|p]; try lia;
    repeat (destruct p as [p|p|]; try lia).
Qed.

Lemma neighbours_months_after (n : nat) (d : date) :
  month_start d ->
  Forall (fun p => month_start (fst p) /\ snd p = next_month (fst p))
    (neighbours (d :: months_after n d)).
Proof.
  revert d. induction n as [|n IH]; intros d Hd; [constructor|].
  change (neighbours (d :: months_after (S n) d))
    with ((d, next_month d) :: neighbours (next_month d :: months_after n (next_month d))).
  constructor; [split; [exact Hd | reflexivity]|].
  apply IH. apply add_months_month_start, Hd.
Qed.



(** ** The combined frame of the forecast chart *)

Lemma StronglySorted_app (A : Type) (R : A -> A -> Prop) (l1 l2 : list A) :
  StronglySorted R l1 -> StronglySorted R l2 ->
  (forall a b, In a l1 -> In b l2 -> R a b) ->
  StronglySorted R (l1 ++ l2).
Proof.
  induction 1 as [|x l1 Hs IH Hall]; intros H2 Hc; simpl; [exact H2|].
  constructor.
  - apply IH; [exact H2|]. intros a b Ha Hb. apply Hc; simpl; auto.
  - apply Forall_app. split; [exact Hall|].
    apply Forall_forall. intros b Hb. apply Hc; simpl; auto.
Qed.

Lemma StronglySorted_app_cross (A : Type) (R : A -> A -> Prop) (l1 l2 : list A) :
  StronglySorted R (l1 ++ l2) -> forall a b, In a l1 -> In b l2 -> R a b.
Proof.
  induction l1 as [|x l1 IH]; simpl; intros Hs a b Ha Hb; [destruct Ha|].
  inversion Hs as [|? ? Hs' Hall]; subst. destruct Ha as [<- | Ha].
  - rewrite Forall_forall in Hall. apply Hall, in_or_app. auto.
  - eapply IH; eassumption.
Qed.

(** In a series in date order the latest date is the last one. *)
Lemma ascending_max_is_last (l : list date) (m : date) :
  StronglySorted (fun a b => Calendar.compare a b = Lt) l ->
  Frame.max_date l = Some m -> exists h, l = h ++ [m].
Proof.
  intros Hs Hmax. apply max_date_is_max in Hmax as [Hin Hle].
  destruct l as [|x l]; [destruct Hin|].
  destruct (exists_last (l:=x :: l)) as [h [a E]]; [discriminate|].
  exists h. rewrite E. f_equal. f_equal.
  rewrite E in Hs, Hin, Hle.
  apply in_app_or in Hin as [Hin | [<- | []]]; [|reflexivity].
  exfalso.
  pose proof (StronglySorted_app_cross _ _ _ _ Hs m a Hin (or_introl eq_refl)) as Hlt.
  apply (Hle a); [apply in_or_app; right; left; reflexivity|].
  rewrite date_compare_antisym, Hlt. reflexivity.
Qed.

Lemma trend_dates_sorted (df : list CleanRecord) :
  StronglySorted (fun a b => Calendar.compare a b = Lt) (map fst (trend df)).
Proof.
  pose proof (trend_ascending df) as H. unfold ascending in H.
  induction H as [|p l Hs IH Hall]; simpl; [constructor|].
  constructor; [exact IH|]. apply Forall_map. exact Hall.
Qed.



(** ** History that lies on a line *)

Section ExactLine.

Local Open Scope Q_scope.

(** A sample on a line, with two different abscissas, is fitted by that
    line. *)
Lemma fit_exact_line (ps : list (Z * Q)) (a b : Q) (p1 p2 : Z * Q) :
  In p1 ps -> In p2 ps -> ~ xq p1 == xq p2 ->
  (forall p, In p ps -> snd p == a * xq p + b) ->
  slope ps == a /\ ybar ps - xbar ps * slope ps == b.
Proof.
  intros H1 H2 Hx Hline.
  assert (Hne : ps <> []) by (intros ->; destruct H1).
  assert (H0 : sigma (res a b) ps == 0).
  { rewrite (sigma_ext _ (fun _ => 0)); [rewrite sigma_const; ring|].
    intros p Hp. unfold res. rewrite (Hline p Hp). ring. }
  pose proof (least_squares ps a b Hne) as Hmin.
  assert (Hnn : 0 <= sigma (res (slope ps) (ybar ps - xbar ps * slope ps)) ps).
  { apply sigma_nonneg. intros p. unfold res. apply Qsq_nonneg. }
  assert (Heq : sigma (res a b) ps ==
                sigma (res (slope ps) (ybar ps - xbar ps * slope ps)) ps) by lra.
  destruct (least_squares_unique ps a b p1 p2 H1 H2 Hx Heq) as [Ea Eb].
  split; symmetry; assumption.
Qed.

End ExactLine.

Lemma sample_trend (df : list CleanRecord) :
  sample df = map (fun p => (Calendar.toordinal (fst p), snd p)) (trend df).
Proof. unfold sample. rewrite monthly_cases_trend, map_map. reflexivity. Qed.

(** The forecast of a history on a line, at sample level. *)
Lemma forecast_on_line (in_bounds : date -> bool) (df : list CleanRecord)
    (a b : Q) (r1 r2 : CleanRecord) :
  Forall month_start_row df ->
  In r1 df -> In r2 df -> Date r1 <> Date r2 ->
  (forall d v, In (d, v) (trend df) ->
               (v == a * inject_Z (Calendar.toordinal d) + b)%Q) ->
  future_dates_in_bounds in_bounds df = true ->
  exists last_date out,
    Frame.max_date (map fst (trend df)) = Some last_date
    /\ forecast in_bounds df = Ok out
    /\ map fst out = months_after 6 last_date
    /\ Forall (fun p => (snd p == a * inject_Z (Calendar.toordinal (fst p)) + b)%Q)
         out.
Proof.
  intros Hf H1 H2 Hne Hline Hin.
  assert (Ht : trend df <> []).
  { rewrite trend_nil. intros E. rewrite E in H1. destruct H1. }
  destruct (forecast_in_range in_bounds df Ht Hin) as [m [last [Hfit [Hmax Hfc]]]].
  assert (Hlast : month_start last) by (eapply last_date_month_start; eassumption).
  assert (Hs : sample df <> []).
  { rewrite sample_trend. intros E. apply map_eq_nil in E. contradiction. }
  rewrite <- sample_fst, <- sample_snd, (fit_of_pairs (sample df) Hs) in Hfit.
  injection Hfit as Hm.
  destruct (sample_of_date df r1 H1) as [q1 Hq1].
  destruct (sample_of_date df r2 H2) as [q2 Hq2].
  destruct (fit_exact_line (sample df) a b _ _ Hq1 Hq2) as [Ea Eb].
  - unfold xq; cbn [fst]. rewrite inject_Z_injective.
    rewrite Forall_forall in Hf.
    destruct (Hf r1 H1) as [Hd1 [Hm1 _]]. destruct (Hf r2 H2) as [Hd2 [Hm2 _]].
    apply toordinal_injective; [split; assumption | split; assumption | exact Hne].
  - intros p Hp. rewrite sample_trend in Hp.
    apply in_map_iff in Hp as [[d v] [<- Hdv]]. unfold xq. cbn [fst snd].
    apply Hline, Hdv.
  - exists last. eexists. split; [exact Hmax|]. split; [exact Hfc|]. split.
    + rewrite !map_map. cbn [fst].
      change (map (fun x : Z => Calendar.add_months last x) horizon)
        with (map (Calendar.add_months last) horizon).
      apply future_dates_months_after, Hlast.
    + apply Forall_map, Forall_forall. intros d _. cbn [fst snd].
      unfold LinearRegression.predict. rewrite <- Hm.
      cbn [LinearRegression.coef LinearRegression.intercept].
      rewrite Eb, Ea. reflexivity.
Qed.





(** ** One run of the script *)


